(** * Govt Scheme Advisor: the retrieval core, embedded in Rocq

    A shallow embedding of [build_data.py] (text cleaning, chunking and the
    offline index build) and of [app.py] (index loading, retrieval, the
    confidence gate, the deterministic link matcher, the answerer call and
    the query handler), with the properties the design document states
    about them.

    Conventions.
    - A Python [str] is a list of Unicode code points ([str := list N]), so
      that [len] counts characters, as Python does.
    - A Python [int] is a [Z]; a Python [float] is a binary64 [float].
    - A [while] loop that the source does not bound runs on fuel and
      gives [NoFuel] when the fuel is used up.
    - An exception is a value of [exn]; code that may raise returns
      [result], and a call into a library returns [external]. *)

From Stdlib Require Import ZArith List Lia Floats String Ascii DecimalString Sorted.
From stdpp Require Import base option list gmap sets.

Local Open Scope Z_scope.

(** ** Python strings *)

Module PyStr.

Abbreviation str := (list N) (only parsing).

Definition len {A} (s : list A) : Z := Z.of_nat (length s).

(** A literal of ASCII characters. *)
Fixpoint lit (s : string) : str :=
  match s with
  | EmptyString => []
  | String c r => N_of_ascii c :: lit r
  end.

(** [str(i)] for an [int]. *)
Definition of_int (i : Z) : str := lit (NilZero.string_of_int (Z.to_int i)).

(** [sep.join(l)] *)
Fixpoint join (sep : str) (l : list str) : str :=
  match l with
  | [] => []
  | [x] => x
  | x :: l' => x ++ sep ++ join sep l'
  end.

(** [str.isspace] on one character, which is also what [\s] matches in a
    [re] pattern over [str]. *)
Definition is_space (c : N) : bool :=
  (((9 <=? c) && (c <=? 13)) || ((28 <=? c) && (c <=? 32))
   || (c =? 133) || (c =? 160) || (c =? 5760)
   || ((8192 <=? c) && (c <=? 8202))
   || (c =? 8232) || (c =? 8233) || (c =? 8239) || (c =? 8287)
   || (c =? 12288))%N.

(** An index of a slice, clamped as Python does: a negative index counts
    from the end. *)
Definition slice_index (n i : Z) : Z :=
  if i <? 0 then Z.max (i + n) 0 else Z.min i n.

(** [s[i:j]] *)
Definition slice {A} (s : list A) (i j : Z) : list A :=
  let lo := slice_index (len s) i in
  let hi := slice_index (len s) j in
  take (Z.to_nat (hi - lo)) (drop (Z.to_nat lo) s).

(** [s.replace(a, b)] for one-character [a] and [b]. *)
Definition replace_char (a b : N) (s : str) : str :=
  map (fun c => if (c =? a)%N then b else c) s.

(** [re.sub(r"\s+", " ", s)]: every maximal run of whitespace becomes one
    space. [in_run] tells that the previous character was whitespace. *)
Fixpoint sub_spaces (in_run : bool) (s : str) : str :=
  match s with
  | [] => []
  | c :: r =>
      if is_space c
      then (if in_run then sub_spaces true r else 32%N :: sub_spaces true r)
      else c :: sub_spaces false r
  end.

Fixpoint lstrip (s : str) : str :=
  match s with
  | [] => []
  | c :: r => if is_space c then lstrip r else s
  end.

Definition rstrip (s : str) : str := rev (lstrip (rev s)).

(** The text does not start with whitespace. *)
Definition head_not_space (s : str) : Prop :=
  match s with
  | [] => True
  | c :: _ => is_space c = false
  end.

(** [s.strip()] *)
Definition strip (s : str) : str := rstrip (lstrip s).

(** [needle in hay] *)
Fixpoint is_prefix (p s : str) : bool :=
  match p, s with
  | [], _ => true
  | _ :: _, [] => false
  | a :: p', b :: s' => (a =? b)%N && is_prefix p' s'
  end.

Fixpoint contains (needle hay : str) : bool :=
  is_prefix needle hay ||
  match hay with
  | [] => false
  | _ :: hay' => contains needle hay'
  end.

(** [str.lower] on the ASCII letters. *)
Definition lower_ascii (s : str) : str :=
  map (fun c => if ((65 <=? c) && (c <=? 90))%N then (c + 32)%N else c) s.

End PyStr.

Import PyStr.

(** ** Outcomes of code that may raise *)

Inductive exn : Type :=
  | RuntimeError (msg : str)
  | SystemExit (msg : str)
  | IndexError
  | StopException
  | ExternalError (msg : str).

Inductive result (A : Type) : Type :=
  | Ok (a : A)
  | Raise (e : exn)
  | NoFuel.
Arguments Ok {A} a.
Arguments Raise {A} e.
Arguments NoFuel {A}.

#[global] Instance result_ret : MRet result := @Ok.
#[global] Instance result_bind : MBind result := fun A B k r =>
  match r with
  | Ok a => k a
  | Raise e => Raise e
  | NoFuel => NoFuel
  end.

(** What a call into a library gives: a value, or an exception. *)
Inductive external (A : Type) : Type :=
  | Returns (a : A)
  | Raises (e : exn).
Arguments Returns {A} a.
Arguments Raises {A} e.

Definition ext {A} (x : external A) : result A :=
  match x with
  | Returns a => Ok a
  | Raises e => Raise e
  end.

(** [for x in l: ...] over a body that may raise: the bodies run in order
    and the first exception ends the loop. *)
Fixpoint for_each {A B} (body : A -> result (list B)) (l : list A)
    : result (list B) :=
  match l with
  | [] => Ok []
  | x :: l' => ys ← body x; zs ← for_each body l'; Ok (ys ++ zs)
  end.

(** [enumerate(l, start=k)] *)
Fixpoint enumerate {A} (k : Z) (l : list A) : list (Z * A) :=
  match l with
  | [] => []
  | x :: l' => (k, x) :: enumerate (k + 1) l'
  end.

(** ** build_data.py *)

Module Build.

(** A text in which whitespace is single: no null character, and every
    whitespace character is a space that is followed by a character that
    is not whitespace, or by the end of the text. *)
Fixpoint single_spaced (s : str) : Prop :=
  match s with
  | [] => True
  | c :: r =>
      c <> 0%N /\
      (is_space c = true ->
         c = 32%N /\ match r with [] => True | c' :: _ => is_space c' = false end) /\
      single_spaced r
  end.

(** [clean_text] *)
Definition clean_text (s : str) : str :=
  let s := replace_char 0%N 32%N s in
  strip (sub_spaces false s).

(** The [while] loop of [chunk_text]. *)
Fixpoint chunk_loop (fuel : nat) (text : str) (max_chars overlap start : Z)
    (out : list str) : result (list str) :=
  match fuel with
  | O => NoFuel
  | S fuel' =>
      if start <? len text then
        let end_ := Z.min (len text) (start + max_chars) in
        let out := out ++ [slice text start end_] in
        if end_ >=? len text then Ok out
        else chunk_loop fuel' text max_chars overlap
               (Z.max 0 (end_ - overlap)) out
      else Ok out
  end.

(** [chunk_text] *)
Definition chunk_text (fuel : nat) (text : str) (max_chars overlap : Z)
    : result (list str) :=
  let text := clean_text text in
  if bool_decide (text = []) then Ok []
  else if len text <=? max_chars then Ok [text]
  else chunk_loop fuel text max_chars overlap 0 [].

(** The windows of the loop as the design document words them: from
    start [s] a window runs to [s + max_chars] or to the end of the text,
    whichever comes first; the window that reaches the end of the text is
    the last one, and otherwise the next window starts [overlap] before
    the end of this one, and not before the start of the text.
    [windows_from L m o s ws] says that [ws] are the windows of a text of
    length [L] from start [s] on. *)
Inductive windows_from (L max_chars overlap : Z) : Z -> list (Z * Z) -> Prop :=
  | windows_none s :
      L <= s ->
      windows_from L max_chars overlap s []
  | windows_last s e :
      s < L -> e = Z.min L (s + max_chars) -> L <= e ->
      windows_from L max_chars overlap s [(s, e)]
  | windows_next s e ws :
      s < L -> e = Z.min L (s + max_chars) -> e < L ->
      windows_from L max_chars overlap (Z.max 0 (e - overlap)) ws ->
      windows_from L max_chars overlap s ((s, e) :: ws).

(** The chunk of a window. *)
Definition cut (t : str) (w : Z * Z) : str := slice t w.1 w.2.

(** Position [p] of [t] lies in one of the chunks [out]: some chunk is the
    part of [t] that starts at [s], [p] falls inside it, and the chunk
    holds at [p - s] the character that [t] holds at [p]. *)
Definition covers (t : str) (out : list str) (p : Z) : Prop :=
  exists (n : nat) (s : Z) (c : str),
    out !! n = Some c /\ 0 <= s /\ s + len c <= len t /\
    c = slice t s (s + len c) /\ s <= p < s + len c /\
    c !! Z.to_nat (p - s) = t !! Z.to_nat p.

Definition default_max_chars : Z := 1400.
Definition default_overlap : Z := 200.

(** [chunk_text(page_text)], as [main] calls it. With the default window
    the loop moves 1200 characters a turn, so that a turn for every
    character of the text is fuel enough. *)
Definition chunk_text_default (text : str) : result (list str) :=
  chunk_text (S (length text)) text default_max_chars default_overlap.

(** What the design document says of the chunks of a text: when the
    cleaned text is longer than [max_chars], [chunk_text] produces chunks
    that leave no position of it out and are at most [max_chars] long. *)
Definition chunks_cover (text : str) (max_chars overlap : Z) : Prop :=
  let t := clean_text text in
  max_chars < len t ->
  exists fuel out,
    chunk_text fuel text max_chars overlap = Ok out /\
    (forall p, 0 <= p < len t -> covers t out p) /\
    (forall c, c ∈ out -> len c <= max_chars).

(** [chunk_text] returns: some amount of fuel is enough. *)
Definition terminates (text : str) (max_chars overlap : Z) : Prop :=
  exists fuel out, chunk_text fuel text max_chars overlap = Ok out.

(** A document of [PDF_DIR]: its file name, and what [PdfReader] gives for
    it, which is an exception or, page by page, what [extract_text]
    returns ([None] where it returns nothing). *)
Record pdf_file := {
  pdf_name : str;
  pdf_pages : external (list (option str));
}.

(** [Path.stem]: the name without its last suffix. *)
Fixpoint last_dot (s : str) (i : nat) (found : option nat) : option nat :=
  match s with
  | [] => found
  | c :: r => last_dot r (S i) (if (c =? 46)%N then Some i else found)
  end.

Definition stem (name : str) : str :=
  match last_dot name 0 None with
  | Some (S i) => if (S (S i) =? length name)%nat then name else take (S i) name
  | _ => name
  end.

(** [parse_pdf] *)
Definition parse_pdf (pdf : pdf_file) : result (list (Z * str)) :=
  pages ← ext (pdf_pages pdf);
  Ok (filter (fun it => negb (bool_decide (it.2 = [])))
        (map (fun it => (it.1, clean_text (default [] it.2)))
           (enumerate 1 pages))).

(** A row of the metadata table. *)
Record row := {
  doc_id : str;
  file_name : str;
  page_no : Z;
  chunk_no : Z;
  text : str;
}.

(** [faiss.IndexFlatIP]: the dimension and the vectors, in the order they
    were added. *)
Definition vec := list float.

Record index := {
  dim : Z;
  vectors : list vec;
}.

(** What [main] leaves on disk. *)
Record artifacts := {
  chunks_jsonl : list row;
  faiss_index : index;
  meta_parquet : list row;
}.

Section Main.

(** The sentence encoder, [all-MiniLM-L6-v2] with normalised output: one
    vector of [emb_dim] components per text. *)
Variable encode1 : str -> vec.
Variable emb_dim : Z.

(** [model.encode(texts, normalize_embeddings=True)] *)
Definition encode (texts : list str) : list vec := map encode1 texts.

(** The rows of one page. *)
Definition page_rows (pdf : pdf_file) (page : Z * str) : result (list row) :=
  cks ← chunk_text_default page.2;
  Ok (map (fun kc => {| doc_id := stem (pdf_name pdf);
                        file_name := pdf_name pdf;
                        page_no := page.1;
                        chunk_no := kc.1;
                        text := kc.2 |})
        (enumerate 1 cks)).

(** The rows of one document. *)
Definition pdf_rows (pdf : pdf_file) : result (list row) :=
  pages ← parse_pdf pdf;
  for_each (page_rows pdf) pages.

(** [main], on [pdfs = sorted(PDF_DIR.glob("*.pdf"))]. An empty batch of
    texts encodes to an array of shape [(0,)], on which [emb.shape[1]]
    raises. *)
Definition main (pdfs : list pdf_file) : result artifacts :=
  if bool_decide (pdfs = []) then Raise (SystemExit (lit "No PDFs found"))
  else
    rows ← for_each pdf_rows pdfs;
    let texts := map text rows in
    let emb := encode texts in
    if bool_decide (emb = []) then Raise IndexError
    else
      let index := {| dim := emb_dim; vectors := [] |} in
      let index := {| dim := dim index; vectors := vectors index ++ emb |} in
      Ok {| chunks_jsonl := rows; faiss_index := index; meta_parquet := rows |}.

End Main.

End Build.

(** ** app.py *)

Module App.

(** What the three files under [data/] hold: [None] when the file does not
    exist, and otherwise what its reader ([faiss.read_index],
    [pd.read_parquet], [json.loads]) makes of it, which may be an
    exception. *)
Record scheme := {
  scheme_id : str;
  scheme_name : option str;
  state : str;
  apply_link : option str;
  source_links : list str;
  doc_ids : list str;       (* [[]] when the key is absent *)
  file_names : list str;    (* [[]] when the key is absent *)
}.

Record disk := {
  faiss_index_file : option (external Build.index);
  meta_parquet_file : option (external (list Build.row));
  links_json_file : option (external (list scheme));
}.

(** The message of the error that [load_index_and_meta] raises. *)
Definition index_not_found : str := lit "Index not found. Run: py build_data.py".

(** [load_index_and_meta] *)
Definition load_index_and_meta (d : disk)
    : result (Build.index * list Build.row) :=
  match faiss_index_file d, meta_parquet_file d with
  | Some read_index, Some read_parquet =>
      index ← ext read_index;
      meta ← ext read_parquet;
      Ok (index, meta)
  | _, _ => Raise (RuntimeError index_not_found)
  end.

(** [load_scheme_links] *)
Definition load_scheme_links (d : disk) : result (list scheme) :=
  match links_json_file d with
  | None => Ok []
  | Some loads => ext loads
  end.

(** An item of evidence. *)
Record evidence := {
  score : float;
  doc_id : str;
  file_name : str;
  page_no : Z;
  text : str;
}.

(** [meta.iloc[i]]: a negative position counts from the last row. *)
Definition iloc (meta : list Build.row) (i : Z) : result Build.row :=
  let j := if i <? 0 then i + len meta else i in
  if (0 <=? j) && (j <? len meta)
  then match meta !! Z.to_nat j with
       | Some r => Ok r
       | None => Raise IndexError
       end
  else Raise IndexError.

(** [a[i]] on an array, for a position that is not negative. *)
Definition at_ {A} (a : list A) (i : Z) : result A :=
  match a !! Z.to_nat i with
  | Some x => Ok x
  | None => Raise IndexError
  end.

(** What faiss documents of the result of [IndexFlatIP.search] for one
    query and [k >= 1]: both arrays have [k] entries, the scores go from
    the largest inner product down, and a label is the position of a
    vector of the index, or [-1] where the index has fewer than [k]
    vectors. *)
Definition faiss_result (index : Build.index) (k : Z)
    (res : list float * list Z) : Prop :=
  length res.1 = Z.to_nat k /\
  length res.2 = Z.to_nat k /\
  (forall (i j : nat) si sj,
     (i <= j)%nat -> res.1 !! i = Some si -> res.1 !! j = Some sj ->
     (sj <=? si)%float = true) /\
  (forall id, id ∈ res.2 -> -1 <= id < len (Build.vectors index)).

Section Retrieval.

(** [embedder().encode([query], normalize_embeddings=True)] *)
Variable embed_query : str -> Build.vec.

(** [index.search(q, top_k)] for the one query: the rows [scores[0]] and
    [ids[0]] of its two arrays. *)
Variable search : Build.index -> Build.vec -> Z -> list float * list Z.

(** [retrieve] *)
Definition retrieve (d : disk) (query : str) (top_k : Z)
    : result (list evidence) :=
  im ← load_index_and_meta d;
  let q := embed_query query in
  let si := search im.1 q top_k in
  for_each (fun it =>
              r ← iloc im.2 it.2;
              sc ← at_ si.1 it.1;
              Ok [{| score := sc;
                     doc_id := Build.doc_id r;
                     file_name := Build.file_name r;
                     page_no := Build.page_no r;
                     text := Build.text r |}])
    (enumerate 0 si.2).

End Retrieval.

Section Matching.

(** [str.lower] *)
Variable lower : str -> str.

(** The body of the loop of [match_links_from_evidence]: whether [found]
    is set for the entry. *)
Definition scheme_found (ev_doc_ids ev_files : gset str) (s : scheme) : bool :=
  let doc_ids := map lower (doc_ids s) in
  let file_names := map lower (file_names s) in
  if negb (bool_decide (doc_ids = []))
     && existsb (fun d => bool_decide (d ∈ ev_doc_ids)) doc_ids
  then true
  else if negb (bool_decide (file_names = []))
          && existsb (fun f => bool_decide (f ∈ ev_files)) file_names
  then true
  else
    let scheme_name := lower (default [] (scheme_name s)) in
    if negb (bool_decide (scheme_name = []))
       && existsb (fun f => contains scheme_name f) (elements ev_files)
    then true
    else false.

(** [match_links_from_evidence] *)
Definition match_links_from_evidence (d : disk) (ev : list evidence)
    : result (list scheme) :=
  links_db ← load_scheme_links d;
  if bool_decide (links_db = []) then Ok []
  else
    let ev_doc_ids : gset str := list_to_set (map (fun e => lower (doc_id e)) ev) in
    let ev_files : gset str := list_to_set (map (fun e => lower (file_name e)) ev) in
    Ok (fold_left
          (fun matched s =>
             if scheme_found ev_doc_ids ev_files s then matched ++ [s]
             else matched)
          links_db []).

(** The three rules as the design document words them, on the evidence
    itself. *)
Definition rule_doc_id (ev : list evidence) (s : scheme) : bool :=
  existsb (fun d => existsb (fun e => bool_decide (lower d = lower (doc_id e))) ev)
    (doc_ids s).

Definition rule_file_name (ev : list evidence) (s : scheme) : bool :=
  existsb (fun f => existsb (fun e => bool_decide (lower f = lower (file_name e))) ev)
    (file_names s).

Definition rule_scheme_name (ev : list evidence) (s : scheme) : bool :=
  let name := lower (default [] (scheme_name s)) in
  negb (bool_decide (name = []))
  && existsb (fun e => contains name (lower (file_name e))) ev.

(** Tried in order, the first rule that holds includes the entry. *)
Definition entry_matches (ev : list evidence) (s : scheme) : bool :=
  if rule_doc_id ev s then true
  else if rule_file_name ev s then true
  else rule_scheme_name ev s.

End Matching.

(** The user profile of the form. The state, the category and the
    language come from fixed choices. *)
Inductive state_choice := AndhraPradesh | Telangana.
Inductive category_choice := General | EWS | OBC_BC | SC | ST.
Inductive language_choice := En | Te.

Definition state_str (c : state_choice) : str :=
  match c with
  | AndhraPradesh => lit "Andhra Pradesh"
  | Telangana => lit "Telangana"
  end.

Definition category_str (c : category_choice) : str :=
  match c with
  | General => lit "General"
  | EWS => lit "EWS"
  | OBC_BC => lit "OBC/BC"
  | SC => lit "SC"
  | ST => lit "ST"
  end.

Definition language_str (c : language_choice) : str :=
  match c with
  | En => lit "en"
  | Te => lit "te"
  end.

Record profile := {
  p_state : state_choice;
  p_age : Z;
  p_annual_income : Z;
  p_category : category_choice;
  p_language : language_choice;
}.

(** [repr] of a string without quotes or escapes. *)
Definition quoted (s : str) : str := lit "'" ++ s ++ lit "'".

(** [str(profile)] *)
Definition profile_repr (p : profile) : str :=
  lit "{'state': " ++ quoted (state_str (p_state p))
  ++ lit ", 'age': " ++ of_int (p_age p)
  ++ lit ", 'annual_income': " ++ of_int (p_annual_income p)
  ++ lit ", 'category': " ++ quoted (category_str (p_category p))
  ++ lit ", 'language': " ++ quoted (language_str (p_language p))
  ++ lit "}".

Definition nl : str := [10%N].

(** The evidence as [llm_answer] writes it into the prompt. *)
Definition evidence_text (ev : list evidence) : str :=
  join (nl ++ nl)
    (map (fun e => lit "[" ++ file_name e ++ lit " | page "
                   ++ of_int (page_no e) ++ lit "]" ++ nl ++ text e) ev).

(** The prompt of [llm_answer]. *)
Definition prompt_of (p : profile) (ev_text : str) : str :=
  nl ++ lit "You are an India government scheme advisor for Andhra Pradesh and Telangana." ++ nl
  ++ nl
  ++ lit "CRITICAL RULES:" ++ nl
  ++ lit "- Use ONLY the evidence below for factual claims." ++ nl
  ++ lit "- Do NOT invent amounts, thresholds, eligibility rules." ++ nl
  ++ lit "- If evidence does not support the query, output ONLY: NOT FOUND" ++ nl
  ++ lit "- DO NOT generate any links unless explicitly present in evidence." ++ nl
  ++ nl
  ++ lit "User profile:" ++ nl
  ++ profile_repr p ++ nl
  ++ nl
  ++ lit "Evidence:" ++ nl
  ++ ev_text ++ nl
  ++ nl
  ++ lit "Write in language: " ++ language_str (p_language p) ++ lit "." ++ nl
  ++ nl
  ++ lit "Output format (short and clean):" ++ nl
  ++ nl
  ++ lit "1) Scheme / Topic" ++ nl
  ++ lit "2) Eligibility: Eligible / Maybe / Not sure + reason" ++ nl
  ++ lit "3) Benefits (if supported)" ++ nl
  ++ lit "4) Citations: [file | page]" ++ nl
  ++ nl
  ++ lit "If insufficient evidence, output ONLY: NOT FOUND" ++ nl.

(** What the page shows and which calls the handler makes, in order. *)
Inductive event : Type :=
  | Retrieve (query : str) (top_k : Z)
  | StError (msg : str)
  | StCaptionBestScore (best_score : float)
  | StSubheader (s : str)
  | LlmAnswer (p : profile) (ev : list evidence)
  | GenerateContent (prompt : str)
  | StWrite (s : str)
  | MatchLinks (ev : list evidence)
  | StMarkdown (s : str)
  | StEvidenceHeading (file_name : str) (page_no : Z) (score : float)
  | StInfo (s : str)
  | StExpander (s : str).

(** A run of code that shows things and may raise: what happened, and
    how it ended. *)
Record ui (A : Type) : Type := Run {
  trace : list event;
  outcome : result A;
}.
Arguments Run {A} trace outcome.
Arguments trace {A} u.
Arguments outcome {A} u.

#[global] Instance ui_ret : MRet ui := fun A a => Run [] (Ok a).
#[global] Instance ui_bind : MBind ui := fun A B k m =>
  match outcome m with
  | Ok a => Run (trace m ++ trace (k a)) (outcome (k a))
  | Raise e => Run (trace m) (Raise e)
  | NoFuel => Run (trace m) NoFuel
  end.

(** The events that are a call of the answerer, and of the link matcher. *)
Definition calls_answerer (e : event) : bool :=
  match e with
  | LlmAnswer _ _ | GenerateContent _ => true
  | _ => false
  end.

Definition calls_matcher (e : event) : bool :=
  match e with
  | MatchLinks _ => true
  | _ => false
  end.

Definition emit (e : event) : ui unit := Run [e] (Ok tt).
Definition call {A} (e : event) (r : result A) : ui A := Run [e] r.

(** [st.stop()] *)
Definition st_stop : ui unit := Run [] (Raise StopException).

(** [for x in l: ...] over a body that shows things. *)
Fixpoint ui_for {A} (body : A -> ui unit) (l : list A) : ui unit :=
  match l with
  | [] => mret tt
  | x :: l' => body x;; ui_for body l'
  end.

Definition MIN_SCORE : float := 0x1.c28f5c28f5c29p-3%float.

(** The message of [llm_answer] for a missing key. *)
Definition key_missing : str :=
  [10060%N] ++ lit " GEMINI_API_KEY missing. Add it to .env".

(** What the form holds when the button is pressed. *)
Record inputs := {
  in_state : state_choice;
  in_age : Z;
  in_income : Z;
  in_category : category_choice;
  in_language : language_choice;
  in_query_hint : str;
  in_top_k : Z;
}.

Section Handler.

Variable embed_query : str -> Build.vec.
Variable search : Build.index -> Build.vec -> Z -> list float * list Z.
Variable lower : str -> str.

(** [os.getenv("GEMINI_API_KEY")] *)
Variable api_key : option str.

(** [model.generate_content(prompt).text]: the call or the reading of the
    text raises, or there is a text, or there is none. *)
Variable generate_content : str -> external (option str).

Variable d : disk.

(** [llm_answer] *)
Definition llm_answer (p : profile) (ev : list evidence) : ui str :=
  if bool_decide (default [] api_key = []) then mret key_missing
  else
    let ev_text := evidence_text ev in
    let prompt := prompt_of p ev_text in
    resp_text ← call (GenerateContent prompt) (ext (generate_content prompt));
    mret (strip (default [] resp_text)).

(** Whether the handler goes on after the retrieval. *)
Definition best_score_of (ev : list evidence) : float :=
  match ev with
  | e :: _ => score e
  | [] => 0%float
  end.

Definition gate_rejects (ev : list evidence) : bool :=
  bool_decide (ev = []) || (best_score_of ev <? MIN_SCORE)%float.

(** The lines shown for one matched entry. *)
Definition show_scheme (s : scheme) : ui unit :=
  emit (StMarkdown (lit "**" ++ default (lit "None") (scheme_name s) ++ lit "**"));;
  emit (StMarkdown (lit "- Apply: " ++ default (lit "Not found") (apply_link s)));;
  ui_for (fun src => emit (StMarkdown (lit "- Source: " ++ src))) (source_links s).

(** The lines shown for one item of evidence. *)
Definition show_evidence (e : evidence) : ui unit :=
  emit (StEvidenceHeading (file_name e) (page_no e) (score e));;
  emit (StWrite (if 900 <? len (text e)
                 then slice (text e) 0 900 ++ [8230%N]
                 else text e)).

(** The handler from the official links on, which is what it does once
    the answer is written. *)
Definition links_and_evidence (evidence : list evidence) : ui unit :=
  matched_links ← call (MatchLinks evidence)
                       (match_links_from_evidence lower d evidence);
  (if bool_decide (matched_links = [])
   then emit (StInfo (lit "No official links mapped for this scheme."))
   else emit (StSubheader ([128279%N] ++ lit " Official Links"));;
        ui_for show_scheme matched_links);;
  emit (StExpander ([128270%N] ++ lit " Evidence used"));;
  ui_for show_evidence evidence.

Definition profile_of (inp : inputs) : profile :=
  {| p_state := in_state inp;
     p_age := in_age inp;
     p_annual_income := in_income inp;
     p_category := in_category inp;
     p_language := in_language inp |}.

Definition query_of (inp : inputs) : str :=
  state_str (in_state inp) ++ lit " age " ++ of_int (in_age inp)
  ++ lit " income " ++ of_int (in_income inp)
  ++ lit " category " ++ category_str (in_category inp)
  ++ lit " " ++ in_query_hint inp.

Definition answer_title : str := [9989%N] ++ lit " Answer".

(** What the handler has done when it reaches the answerer. *)
Definition started (inp : inputs) (ev : list evidence) : list event :=
  [Retrieve (query_of inp) (in_top_k inp);
   StSubheader answer_title;
   LlmAnswer (profile_of inp) ev].

(** The body of [if st.button("Find schemes")]. *)
Definition handler (inp : inputs) : ui unit :=
  let profile := profile_of inp in
  let query := query_of inp in
  evidence ← call (Retrieve query (in_top_k inp))
                  (retrieve embed_query search d query (in_top_k inp));
  let best_score := best_score_of evidence in
  if gate_rejects evidence then
    emit (StError (lit "NOT FOUND"));;
    emit (StCaptionBestScore best_score);;
    st_stop
  else
    emit (StSubheader answer_title);;
    answer ← (emit (LlmAnswer profile evidence);; llm_answer profile evidence);
    emit (StWrite answer);;
    links_and_evidence evidence.

(** What the design document says of an answerer that did not succeed:
    a message that is not empty is written, and the link matcher runs. *)
Definition failure_is_shown (u : ui unit) : Prop :=
  (exists msg, msg <> [] /\ StWrite msg ∈ trace u) /\
  (exists ev, MatchLinks ev ∈ trace u).

End Handler.

End App.

(** ** sync_link.py *)

Module Sync.

(** [s.endswith(suffix)] *)
Definition ends_with (suffix s : str) : bool := is_prefix (rev suffix) (rev s).

(** [s.split(sep)] for a separator of one character. *)
Fixpoint split (sep : N) (s : str) : list str :=
  match s with
  | [] => [[]]
  | c :: r =>
      if (c =? sep)%N then [] :: split sep r
      else match split sep r with
           | [] => [[c]]
           | h :: t => (c :: h) :: t
           end
  end.

(** [url.split("/")[-1].split("?")[0]] *)
Definition file_name_of (url : str) : str :=
  hd [] (split 63%N (List.last (split 47%N url) [])).

(** The seed table [SCHEMES]. *)
Definition SCHEMES : list App.scheme :=
  [ {| App.scheme_id := lit "ap_ntr_bharosa_ssp";
       App.scheme_name := Some (lit "AP Social Security Pensions (NTR Bharosa)");
       App.state := lit "ap";
       App.apply_link := Some (lit "https://gsws-nbm.ap.gov.in/NBM/Home/Main");
       App.source_links :=
         [lit "https://sspensions.ap.gov.in/";
          lit "https://sspensions.ap.gov.in/SSP/Documents/GO%20MS%2043%2013.06.2024.pdf"];
       App.doc_ids := []; App.file_names := [] |};
    {| App.scheme_id := lit "tel_kalyana_lakshmi";
       App.scheme_name := Some (lit "Kalyana Lakshmi / Shaadi Mubarak");
       App.state := lit "telangana";
       App.apply_link := Some (lit "https://telanganaepass.cgg.gov.in/KalyanaLakshmiLinks.jsp");
       App.source_links :=
         [lit "https://telanganaepass.cgg.gov.in/KalyanLakshmi.do";
          lit "https://wdsc.telangana.gov.in/PwD/GOs/GO.Ms.No.04%20PwD%20Kalyana%20Lashmi%20Pathakam.PDF"];
       App.doc_ids := []; App.file_names := [] |};
    {| App.scheme_id := lit "tel_aasara_pension";
       App.scheme_name := Some (lit "Aasara Pensions");
       App.state := lit "telangana";
       App.apply_link := Some (lit "https://www.cheyutha.telangana.gov.in/SSPTG/UserInterface/Portal/GeneralSearch.aspx");
       App.source_links :=
         [lit "https://medak.telangana.gov.in/scheme/aasara-pensions/";
          lit "https://services.india.gov.in/service/detail/telangana-aasara-pensions-undersociety-for-elimination-of-rural-poverty-details-of-the-beneficiariess"];
       App.doc_ids := []; App.file_names := [] |} ].

(** What [main] prints. *)
Inductive line : Type :=
  | WroteMapping
  | Downloaded (path : str)
  | Failed (link : str) (e : exn)
  | Total (downloaded : Z)
  | NextStep.

(** The files of [PDF_DIR] by their path, the requests made so far (the
    latest last), what was printed, and the counter [downloaded]. *)
Record world := {
  files : gmap (list N) (list N);
  requests : list str;
  printed : list line;
  downloaded : Z;
}.

Section Download.

(** [str.lower] *)
Variable lower : str -> str.

(** [requests.get(url, timeout=45)] followed by [raise_for_status()]:
    the content of the response, or the exception of either. *)
Variable http_get : str -> external (list N).

(** [str(folder / filename)] for a file name without a separator. *)
Variable path_sep : str.
Definition path_in (folder filename : str) : str :=
  folder ++ path_sep ++ filename.

(** [download_pdf]: what it returns or raises, and the world after it. *)
Definition download_pdf (w : world) (url folder : str)
    : result (option str) * world :=
  if negb (ends_with (lit ".pdf") (lower url)) then (Ok None, w)
  else
    let filename := file_name_of url in
    let out_path := path_in folder filename in
    let w := {| files := files w; requests := requests w ++ [url];
                printed := printed w; downloaded := downloaded w |} in
    match http_get url with
    | Raises e => (Raise e, w)
    | Returns content =>
        (Ok (Some out_path),
         {| files := <[out_path := content]> (files w);
            requests := requests w; printed := printed w;
            downloaded := downloaded w |})
    end.

Definition print (l : line) (w : world) : world :=
  {| files := files w; requests := requests w;
     printed := printed w ++ [l]; downloaded := downloaded w |}.

(** The body of the inner loop of [main], with its [try]. *)
Definition try_download (folder : str) (w : world) (link : str) : world :=
  match download_pdf w link folder with
  | (Ok p, w) =>
      if bool_decide (default [] p = []) then w
      else print (Downloaded (default [] p))
             {| files := files w; requests := requests w;
                printed := printed w; downloaded := downloaded w + 1 |}
  | (Raise e, w) => print (Failed link e) w
  | (NoFuel, w) => w
  end.

(** The two loops of [main] over a table of schemes. *)
Definition download_all (folder : str) (schemes : list App.scheme) (w : world)
    : world :=
  fold_left
    (fun w s => fold_left (try_download folder) (App.source_links s) w)
    schemes w.

(** [main]: the mapping it writes to [OUT_JSON], and the world it leaves,
    from a world in which nothing was printed or counted. *)
Definition main (folder : str) (w : world) : list App.scheme * world :=
  let w := print WroteMapping w in
  let w := {| files := files w; requests := requests w;
              printed := printed w; downloaded := 0 |} in
  let w := download_all folder SCHEMES w in
  let w := print (Total (downloaded w)) w in
  (SCHEMES, print NextStep w).

(** The links that [download_pdf] takes for documents, and those among
    them that the server gives. *)
Definition looks_like_pdf (url : str) : bool :=
  ends_with (lit ".pdf") (lower url).

Definition is_served (url : str) : bool :=
  match http_get url with
  | Returns _ => true
  | Raises _ => false
  end.

(** The line that [main] prints for a link that looks like a document. *)
Definition line_of (folder url : str) : line :=
  match http_get url with
  | Returns _ => Downloaded (path_in folder (file_name_of url))
  | Raises e => Failed url e
  end.

End Download.

End Sync.

(** ** Sample data

    A links database and evidence for it. *)

Definition ex_evidence (sc : float) (id file : string) (page : Z) (txt : string)
    : App.evidence :=
  {| App.score := sc; App.doc_id := lit id; App.file_name := lit file;
     App.page_no := page; App.text := lit txt |}.

Definition ex_scheme (id name : string) (ids files : list string) : App.scheme :=
  {| App.scheme_id := lit id; App.scheme_name := Some (lit name);
     App.state := lit "ap"; App.apply_link := None; App.source_links := [];
     App.doc_ids := map lit ids; App.file_names := map lit files |}.

Definition ex_links : list App.scheme :=
  [ex_scheme "a" "Aasara Pensions" ["GO_43"%string] [];
   ex_scheme "b" "Kalyana Lakshmi" [] ["go_43.pdf"%string];
   ex_scheme "c" "pension" [] [];
   ex_scheme "d" "Housing" ["h1"%string] ["h1.pdf"%string]].

Definition ex_disk : App.disk :=
  {| App.faiss_index_file := None; App.meta_parquet_file := None;
     App.links_json_file := Some (Returns ex_links) |}.

Definition ex_ev1 : list App.evidence :=
  [ex_evidence 0.5 "go_43" "GO_43.pdf" 1 "one";
   ex_evidence 0.25 "Pension_GO" "pension_go.pdf" 3 "two"].

Definition ex_ev2 : list App.evidence :=
  [ex_evidence 0.125 "PENSION_go" "Pension_GO.pdf" 7 "three";
   ex_evidence 0.75 "GO_43" "go_43.PDF" 2 "four";
   ex_evidence 0.5 "pension_go" "PENSION_GO.PDF" 9 "five"].

(** A built index of two chunks, searches on it, and the form. *)

Definition ex_row (id file : string) (page chunk : Z) (txt : string) : Build.row :=
  {| Build.doc_id := lit id; Build.file_name := lit file;
     Build.page_no := page; Build.chunk_no := chunk; Build.text := lit txt |}.

Definition ex_meta : list Build.row :=
  [ex_row "pension_go" "pension_go.pdf" 1 1 "Pension of Rs. 4000 a month";
   ex_row "go_43" "GO_43.pdf" 2 1 "Eligibility: age 60 and above"].

Definition ex_index : Build.index :=
  {| Build.dim := 2; Build.vectors := [[1; 0]; [0; 1]]%float |}.

Definition ex_built : App.disk :=
  {| App.faiss_index_file := Some (Returns ex_index);
     App.meta_parquet_file := Some (Returns ex_meta);
     App.links_json_file := Some (Returns ex_links) |}.

Definition ex_embed (q : str) : Build.vec := [0; 1]%float.

(** The least [float32], which faiss gives as the score of a label [-1]. *)
Definition ex_pad : float := (-0x1.fffffep+127)%float.

(** A search that finds both vectors, the second one first. *)
Definition ex_search (i : Build.index) (q : Build.vec) (k : Z)
    : list float * list Z :=
  ([0.5; 0.25; ex_pad; ex_pad]%float, [1; 0; -1; -1]).

(** A search that finds nothing close. *)
Definition ex_search_far (i : Build.index) (q : Build.vec) (k : Z)
    : list float * list Z :=
  ([0.125; 0.0625; ex_pad; ex_pad]%float, [0; 1; -1; -1]).

Definition ex_inputs : App.inputs :=
  {| App.in_state := App.Telangana; App.in_age := 25; App.in_income := 150000;
     App.in_category := App.General; App.in_language := App.En;
     App.in_query_hint := lit "pension eligibility benefits";
     App.in_top_k := 4 |}.

Definition ex_item (sc : float) (r : Build.row) : App.evidence :=
  {| App.score := sc; App.doc_id := Build.doc_id r;
     App.file_name := Build.file_name r; App.page_no := Build.page_no r;
     App.text := Build.text r |}.

Definition ex_retrieved : list App.evidence :=
  [ex_item 0.5 (ex_row "go_43" "GO_43.pdf" 2 1 "Eligibility: age 60 and above");
   ex_item 0.25 (ex_row "pension_go" "pension_go.pdf" 1 1 "Pension of Rs. 4000 a month");
   ex_item ex_pad (ex_row "go_43" "GO_43.pdf" 2 1 "Eligibility: age 60 and above");
   ex_item ex_pad (ex_row "go_43" "GO_43.pdf" 2 1 "Eligibility: age 60 and above")].

Definition ex_retrieved_far : list App.evidence :=
  [ex_item 0.125 (ex_row "pension_go" "pension_go.pdf" 1 1 "Pension of Rs. 4000 a month");
   ex_item 0.0625 (ex_row "go_43" "GO_43.pdf" 2 1 "Eligibility: age 60 and above");
   ex_item ex_pad (ex_row "go_43" "GO_43.pdf" 2 1 "Eligibility: age 60 and above");
   ex_item ex_pad (ex_row "go_43" "GO_43.pdf" 2 1 "Eligibility: age 60 and above")].

(** An answerer whose call fails. *)
Definition ex_unavailable (prompt : str) : external (option str) :=
  Raises (ExternalError (lit "503 Service Unavailable")).

(** A search that returns a label for which the metadata has no row. *)
Definition ex_search_stale (i : Build.index) (q : Build.vec) (k : Z)
    : list float * list Z :=
  ([0.5; 0.25; 0.125; 0.0625]%float, [1; 5; 0; -1]).

(** A folder of one document of two pages, the first without text, and
    what the build writes for it, with an encoder that gives the same
    vector for every text. *)
Definition ex_pdfs : list Build.pdf_file :=
  [{| Build.pdf_name := lit "pension_go.pdf";
      Build.pdf_pages := Returns [None; Some (lit "  Pension of  Rs. 4000 ")] |}].

Definition ex_encode1 (t : str) : Build.vec := [1; 0]%float.

Definition ex_art : Build.artifacts :=
  let rows := [ex_row "pension_go" "pension_go.pdf" 2 1 "Pension of Rs. 4000"] in
  {| Build.chunks_jsonl := rows;
     Build.faiss_index := {| Build.dim := 2; Build.vectors := [[1; 0]%float] |};
     Build.meta_parquet := rows |}.

(** A server that gives the first document of the seed table and fails
    for every other request, and a world without files. *)
Definition ex_http (url : str) : external (list N) :=
  if bool_decide
       (url = lit "https://sspensions.ap.gov.in/SSP/Documents/GO%20MS%2043%2013.06.2024.pdf")
  then Returns (lit "%PDF-1.4")
  else Raises (ExternalError (lit "404 Client Error")).

Definition ex_world : Sync.world :=
  {| Sync.files := ∅; Sync.requests := []; Sync.printed := [];
     Sync.downloaded := 0 |}.

(** A search on the index of [ex_art], which has one vector. *)
Definition ex_search_one (i : Build.index) (q : Build.vec) (k : Z)
    : list float * list Z :=
  ([0.5; ex_pad]%float, [0; -1]).

(** * Properties *)

(** ** Runs of the cleaning and of the chunking *)

Example clean_text_ex :
  Build.clean_text (lit "  a" ++ [0%N; 10%N; 160%N] ++ lit "b  c ") = lit "a b c".
Proof. reflexivity. Qed.

Example chunk_text_ex :
  Build.chunk_text 10 (lit "abcdefghij") 4 1
  = Ok [lit "abcd"; lit "defg"; lit "ghij"].
Proof. reflexivity. Qed.


(** ** Slices *)

Section Slices.
Context {A : Type}.
Implicit Types (t : list A) (s e p : Z).

Lemma slice_inside t s e :
  0 <= s -> s <= e -> e <= len t ->
  slice t s e = take (Z.to_nat (e - s)) (drop (Z.to_nat s) t).
Proof.
  intros Hs Hse He. unfold slice, slice_index.
  destruct (Z.ltb_spec s 0), (Z.ltb_spec e 0); try lia.
  rewrite !Z.min_l by lia. reflexivity.
Qed.

Lemma len_slice t s e :
  0 <= s -> s <= e -> e <= len t -> len (slice t s e) = e - s.
Proof.
  intros Hs Hse He. rewrite slice_inside by assumption.
  unfold len in *. rewrite length_take, length_drop. lia.
Qed.

Lemma slice_lookup t s e p :
  0 <= s -> s <= p -> p < e -> e <= len t ->
  slice t s e !! Z.to_nat (p - s) = t !! Z.to_nat p.
Proof.
  intros Hs Hsp Hpe He. rewrite slice_inside by lia.
  rewrite lookup_take_lt by lia. rewrite lookup_drop. f_equal. lia.
Qed.

End Slices.

(** ** Cleaning *)

Section Cleaning.
Import Build.
Implicit Types (s r : str) (c : N).

Lemma lstrip_head s : head_not_space (lstrip s).
Proof.
  induction s as [|c r IH]; simpl; [exact I|].
  destruct (is_space c) eqn:Hc; [exact IH|exact Hc].
Qed.

Lemma lstrip_id s : head_not_space s -> lstrip s = s.
Proof. destruct s as [|c r]; simpl; [reflexivity|]. intros ->. reflexivity. Qed.

Lemma lstrip_suffix s : exists p, s = p ++ lstrip s.
Proof.
  induction s as [|c r [p IH]]; simpl; [exists []; reflexivity|].
  destruct (is_space c).
  - exists (c :: p). simpl. f_equal. exact IH.
  - exists []. reflexivity.
Qed.

Lemma rstrip_prefix s : exists q, s = rstrip s ++ q.
Proof.
  unfold rstrip. destruct (lstrip_suffix (rev s)) as [p Hp].
  exists (rev p). rewrite <- rev_app_distr, <- Hp, rev_involutive. reflexivity.
Qed.

Lemma lstrip_snoc s c :
  is_space c = false -> lstrip (s ++ [c]) = lstrip s ++ [c].
Proof.
  intros Hc. induction s as [|a r IH]; simpl; [rewrite Hc; reflexivity|].
  destruct (is_space a); [exact IH|reflexivity].
Qed.

Lemma rstrip_cons c r :
  is_space c = false -> rstrip (c :: r) = c :: rstrip r.
Proof.
  intros Hc. unfold rstrip. simpl. rewrite lstrip_snoc by exact Hc.
  rewrite rev_app_distr. reflexivity.
Qed.

Lemma rstrip_rstrip s : rstrip (rstrip s) = rstrip s.
Proof.
  unfold rstrip. rewrite rev_involutive.
  rewrite (lstrip_id (lstrip (rev s))) by apply lstrip_head. reflexivity.
Qed.

Lemma strip_strip s : strip (strip s) = strip s.
Proof.
  unfold strip. pose proof (lstrip_head s) as Hh.
  destruct (lstrip s) as [|c r]; [reflexivity|]. simpl in Hh.
  rewrite rstrip_cons by exact Hh. simpl. rewrite Hh.
  rewrite <- (rstrip_cons c r) by exact Hh. apply rstrip_rstrip.
Qed.

(** The length does not grow. *)
Lemma length_lstrip s : (length (lstrip s) <= length s)%nat.
Proof.
  induction s as [|c r IH]; simpl; [lia|]. destruct (is_space c); simpl; lia.
Qed.

Lemma length_strip s : (length (strip s) <= length s)%nat.
Proof.
  unfold strip, rstrip. rewrite length_rev.
  pose proof (length_lstrip (rev (lstrip s))) as H1.
  rewrite length_rev in H1. pose proof (length_lstrip s). lia.
Qed.

Lemma length_sub_spaces b s : (length (sub_spaces b s) <= length s)%nat.
Proof.
  revert b. induction s as [|c r IH]; intros b; simpl; [lia|].
  destruct (is_space c); [destruct b|]; simpl;
    first [pose proof (IH true); lia | pose proof (IH false); lia].
Qed.

Lemma length_clean_text s : (length (clean_text s) <= length s)%nat.
Proof.
  unfold clean_text, replace_char.
  pose proof (length_strip (sub_spaces false (map (fun c => if (c =? 0)%N then 32%N else c) s))).
  pose proof (length_sub_spaces false (map (fun c => if (c =? 0)%N then 32%N else c) s)).
  rewrite length_map in *. lia.
Qed.

(** Single spacing. *)
Lemma single_spaced_suffix p s : single_spaced (p ++ s) -> single_spaced s.
Proof. induction p as [|c p IH]; simpl; [auto|]. intros (_ & _ & H). auto. Qed.

Lemma single_spaced_prefix s q : single_spaced (s ++ q) -> single_spaced s.
Proof.
  induction s as [|c r IH]; simpl; [auto|].
  intros (H0 & Hsp & Hr). split; [exact H0|]. split; [|auto].
  intros Hc. destruct (Hsp Hc) as [-> Hn]. split; [reflexivity|].
  destruct r; [exact I|exact Hn].
Qed.

Lemma sub_spaces_true_head s : head_not_space (sub_spaces true s).
Proof.
  induction s as [|c r IH]; simpl; [exact I|].
  destruct (is_space c) eqn:Hc; [exact IH|exact Hc].
Qed.

Lemma sub_spaces_single b s :
  Forall (fun c => c <> 0%N) s -> single_spaced (sub_spaces b s).
Proof.
  intros Hs. revert b. induction Hs as [|c r Hc Hr IH]; intros b; simpl; [exact I|].
  destruct (is_space c) eqn:Hsp.
  - destruct b; [apply IH|]. simpl. split; [discriminate|]. split; [|apply IH].
    intros _. split; [reflexivity|]. apply sub_spaces_true_head.
  - simpl. split; [exact Hc|]. split; [|apply IH]. congruence.
Qed.

Lemma sub_spaces_id s : single_spaced s -> sub_spaces false s = s.
Proof.
  induction s as [|c r IH]; simpl; [reflexivity|].
  intros (_ & Hsp & Hr). destruct (is_space c) eqn:Hc.
  - destruct (Hsp eq_refl) as [-> Hn]. f_equal.
    destruct r as [|c' r']; [reflexivity|]. simpl in IH |- *.
    simpl in Hr. rewrite Hn in IH, Hr |- *. apply IH. exact Hr.
  - f_equal. apply IH. exact Hr.
Qed.

Lemma replace_null_id s : single_spaced s -> replace_char 0%N 32%N s = s.
Proof.
  unfold replace_char. induction s as [|c r IH]; simpl; [reflexivity|].
  intros (H0 & _ & Hr). rewrite IH by exact Hr.
  destruct (N.eqb_spec c 0); [contradiction|reflexivity].
Qed.

Lemma replace_null_free s : Forall (fun c => c <> 0%N) (replace_char 0%N 32%N s).
Proof.
  unfold replace_char. induction s as [|c r IH]; simpl; constructor; [|exact IH].
  destruct (N.eqb_spec c 0); [discriminate|assumption].
Qed.

Lemma clean_text_single s : single_spaced (clean_text s).
Proof.
  unfold clean_text, strip.
  pose proof (sub_spaces_single false _ (replace_null_free s)) as H.
  destruct (lstrip_suffix (sub_spaces false (replace_char 0 32 s))) as [p Hp].
  rewrite Hp in H. apply single_spaced_suffix in H.
  destruct (rstrip_prefix (lstrip (sub_spaces false (replace_char 0 32 s)))) as [q Hq].
  rewrite Hq in H. apply single_spaced_prefix in H. exact H.
Qed.

(** Cleaning a clean text changes nothing. *)
Lemma clean_text_idempotent s : clean_text (clean_text s) = clean_text s.
Proof.
  pose proof (clean_text_single s) as H.
  unfold clean_text at 1.
  rewrite replace_null_id by exact H. rewrite sub_spaces_id by exact H.
  unfold clean_text. apply strip_strip.
Qed.

End Cleaning.

(** ** The window loop *)

Section ChunkLoop.
Import Build.
Implicit Types (t : str) (m o s : Z) (out : list str).

(** The loop returns as soon as the distance to the end of the text is
    below the fuel, provided a turn moves the window forward. *)
Lemma chunk_loop_returns fuel t m o s out :
  o < m -> 0 <= s -> (Z.to_nat (len t - s) < fuel)%nat ->
  exists res, chunk_loop fuel t m o s out = Ok res.
Proof.
  intros Hom. revert s out.
  induction fuel as [|fuel IH]; intros s out Hs Hf; [lia|].
  simpl. destruct (Z.ltb_spec s (len t)) as [Hlt|Hge]; [|eauto].
  destruct (Z.geb_spec (Z.min (len t) (s + m)) (len t)) as [Hend|Hend]; [eauto|].
  apply IH; lia.
Qed.

(** What the loop returns are the chunks of the windows, one after the
    other, after what [out] held. *)
Lemma chunk_loop_windows fuel t m o s out res :
  chunk_loop fuel t m o s out = Ok res ->
  exists ws, windows_from (len t) m o s ws /\ res = out ++ map (cut t) ws.
Proof.
  revert s out. induction fuel as [|fuel IH]; intros s out; [discriminate|].
  simpl. destruct (Z.ltb_spec s (len t)) as [Hlt|Hge].
  - destruct (Z.geb_spec (Z.min (len t) (s + m)) (len t)) as [Hend|Hend].
    + intros [= <-]. exists [(s, Z.min (len t) (s + m))].
      split; [apply windows_last; auto|reflexivity].
    + intros Hloop. apply IH in Hloop as (ws & Hws & ->).
      exists ((s, Z.min (len t) (s + m)) :: ws).
      split; [apply windows_next; auto|].
      rewrite <- app_assoc. reflexivity.
  - intros [= <-]. exists []. split; [apply windows_none; exact Hge|].
    rewrite app_nil_r. reflexivity.
Qed.

(** When a turn does not move the window forward, the loop never ends. *)
Lemma chunk_loop_stuck fuel t m o out :
  m <= o -> m < len t -> 0 < len t ->
  chunk_loop fuel t m o 0 out = NoFuel.
Proof.
  intros Hmo HmL Hne. revert out.
  induction fuel as [|fuel IH]; intros out; [reflexivity|].
  simpl.
  destruct (Z.ltb_spec 0 (len t)) as [_|]; [|lia].
  destruct (Z.geb_spec (Z.min (len t) (0 + m)) (len t)) as [Hend|Hend]; [lia|].
  replace (Z.max 0 (Z.min (len t) (0 + m) - o)) with 0 by lia.
  apply IH.
Qed.

End ChunkLoop.

(** ** The windows *)

Section Windows.
Import Build.
Implicit Types (L m o s p : Z) (ws : list (Z * Z)) (w : Z * Z).

(** The windows of a text are determined by the parameters. *)
Lemma windows_unique L m o s ws ws' :
  windows_from L m o s ws -> windows_from L m o s ws' -> ws = ws'.
Proof.
  intros Hws. revert ws'.
  induction Hws as [s Hs|s e Hs He Hend|s e ws Hs He Hend Hws IH];
    intros ws' Hws'; inversion Hws'; subst; try lia; try reflexivity.
  f_equal. apply IH. assumption.
Qed.

(** The first window starts where the windows start. *)
Lemma windows_head L m o s ws w :
  windows_from L m o s ws -> ws !! 0%nat = Some w -> w.1 = s.
Proof. destruct 1; simpl; intros [= <-]; reflexivity. Qed.

(** A window ends [m] after its start, or at the end of the text. *)
Lemma windows_end L m o s ws :
  windows_from L m o s ws ->
  forall n w, ws !! n = Some w -> w.2 = Z.min L (w.1 + m).
Proof.
  induction 1 as [s Hs|s e Hs He Hend|s e ws Hs He Hend Hws IH];
    intros n w Hn.
  - discriminate.
  - destruct n; simpl in Hn; [|discriminate]. injection Hn as <-. exact He.
  - destruct n; simpl in Hn.
    + injection Hn as <-. exact He.
    + eapply IH, Hn.
Qed.

(** The window after one that ends at [e] starts at [max 0 (e - o)]. *)
Lemma windows_step L m o s ws :
  windows_from L m o s ws ->
  forall n w w', ws !! n = Some w -> ws !! S n = Some w' ->
  w'.1 = Z.max 0 (w.2 - o).
Proof.
  induction 1 as [s Hs|s e Hs He Hend|s e ws Hs He Hend Hws IH];
    intros n w w' Hn Hn'.
  - discriminate.
  - simpl in Hn'. discriminate.
  - destruct n; simpl in Hn, Hn'.
    + injection Hn as <-. apply (windows_head _ _ _ _ _ _ Hws Hn').
    + eapply IH; eassumption.
Qed.

(** Only the last window reaches the end of the text. *)
Lemma windows_before_last L m o s ws :
  windows_from L m o s ws ->
  forall n w, ws !! n = Some w -> (S n < length ws)%nat -> w.2 < L.
Proof.
  induction 1 as [s Hs|s e Hs He Hend|s e ws Hs He Hend Hws IH];
    intros n w Hn Hlen.
  - discriminate.
  - simpl in Hlen. lia.
  - destruct n; simpl in Hn.
    + injection Hn as <-. exact Hend.
    + apply (IH n w Hn). simpl in Hlen. lia.
Qed.

(** With a back-overlap that is not negative there is a window, and the
    last one ends at the end of the text. *)
Lemma windows_last_end L m o s ws :
  windows_from L m o s ws -> 0 <= o -> 0 <= s -> s < L ->
  exists s', last ws = Some (s', L).
Proof.
  intros Hws Ho.
  induction Hws as [s Hs|s e Hs He Hend|s e ws Hs He Hend Hws IH];
    intros Hs0 HsL.
  - lia.
  - exists s. simpl. do 2 f_equal. lia.
  - destruct IH as [s' Hs']; [lia|lia|]. exists s'.
    destruct ws; [discriminate|]. exact Hs'.
Qed.

(** Every window lies inside the text and is at most [m] long. *)
Lemma windows_inside L m o s ws :
  windows_from L m o s ws -> 0 <= o -> o < m -> 0 <= s ->
  forall w, w ∈ ws -> 0 <= w.1 /\ w.1 < w.2 /\ w.2 <= L /\ w.2 - w.1 <= m.
Proof.
  intros Hws Ho Hom.
  induction Hws as [s Hs|s e Hs He Hend|s e ws Hs He Hend Hws IH];
    intros Hs0 w Hw.
  - apply elem_of_nil in Hw. contradiction.
  - apply list_elem_of_singleton in Hw. subst w. cbn [fst snd]. lia.
  - apply elem_of_cons in Hw. destruct Hw as [->|Hw]; [cbn [fst snd]; lia|].
    apply IH; [lia|assumption].
Qed.

(** The windows leave no gap: every position from the first start on lies
    in one of them. *)
Lemma windows_cover L m o s ws :
  windows_from L m o s ws -> 0 <= o ->
  forall p, 0 <= p -> s <= p -> p < L ->
  exists n w, ws !! n = Some w /\ w.1 <= p /\ p < w.2.
Proof.
  intros Hws Ho.
  induction Hws as [s Hs|s e Hs He Hend|s e ws Hs He Hend Hws IH];
    intros p Hp Hsp HpL.
  - lia.
  - exists 0%nat, (s, e). cbn [fst snd]. split; [reflexivity|lia].
  - destruct (Z_lt_le_dec p e) as [Hin|Hout].
    + exists 0%nat, (s, e). cbn [fst snd]. auto.
    + destruct (IH p) as (n & w & Hn & Hw); [lia|lia|lia|].
      exists (S n), w. auto.
Qed.

End Windows.

(** ** Chunking *)

Section Chunking.
Import Build.
Implicit Types (text t : str) (m o : Z).

(** A text longer than the window is cut along its windows, whatever the
    fuel above its length. *)
Lemma chunk_text_long text m o :
  o < m -> m < len (clean_text text) -> clean_text text <> [] ->
  exists ws,
    windows_from (len (clean_text text)) m o 0 ws /\
    forall fuel, (length (clean_text text) < fuel)%nat ->
      chunk_text fuel text m o = Ok (map (cut (clean_text text)) ws).
Proof.
  intros Hom Hm Hne. set (t := clean_text text) in *.
  assert (Hfuel : forall fuel, (length t < fuel)%nat ->
            exists ws, windows_from (len t) m o 0 ws /\
                       chunk_text fuel text m o = Ok (map (cut t) ws)).
  { intros fuel Hf. unfold chunk_text. fold t.
    rewrite bool_decide_eq_false_2 by exact Hne.
    destruct (Z.leb_spec (len t) m) as [|_]; [lia|].
    destruct (chunk_loop_returns fuel t m o 0 []) as [res Hres];
      [exact Hom|lia|unfold len; lia|].
    rewrite Hres. apply chunk_loop_windows in Hres as (ws & Hws & ->).
    exists ws. split; [exact Hws|reflexivity]. }
  destruct (Hfuel (S (length t))) as (ws & Hws & _); [lia|].
  exists ws. split; [exact Hws|]. intros fuel Hf.
  destruct (Hfuel fuel Hf) as (ws' & Hws' & Heq).
  rewrite (windows_unique _ _ _ _ _ _ Hws Hws'). exact Heq.
Qed.

(** A text that fits the window is one chunk. *)
Lemma chunk_text_short text m o fuel :
  clean_text text <> [] -> len (clean_text text) <= m ->
  chunk_text fuel text m o = Ok [clean_text text].
Proof.
  intros Hne Hm. unfold chunk_text.
  rewrite bool_decide_eq_false_2 by exact Hne.
  destruct (Z.leb_spec (len (clean_text text)) m); [reflexivity|lia].
Qed.

(** The chunks of windows that lie inside the text cover what the windows
    cover. *)
Lemma cut_covers t ws n w p :
  ws !! n = Some w -> 0 <= w.1 -> w.1 <= w.2 -> w.2 <= len t ->
  w.1 <= p -> p < w.2 -> covers t (map (cut t) ws) p.
Proof.
  intros Hn H1 H12 H2 Hp1 Hp2.
  exists n, w.1, (cut t w). unfold cut.
  rewrite list_lookup_fmap, Hn. rewrite len_slice by lia.
  replace (w.1 + (w.2 - w.1)) with w.2 by lia. simpl.
  repeat split; try lia. apply slice_lookup; lia.
Qed.

(** With the default window, [chunk_text_default] returns. *)
Lemma chunk_text_default_returns text :
  exists out, chunk_text_default text = Ok out.
Proof.
  unfold chunk_text_default, chunk_text.
  destruct (bool_decide (clean_text text = [])); [eauto|].
  destruct (len (clean_text text) <=? default_max_chars); [eauto|].
  apply chunk_loop_returns; [reflexivity|lia|].
  pose proof (length_clean_text text). unfold len. lia.
Qed.

(** The pages that [parse_pdf] returns are clean and not empty. *)
Lemma parse_pdf_pages pdf pages page :
  parse_pdf pdf = Ok pages -> page ∈ pages ->
  clean_text page.2 = page.2 /\ page.2 <> [].
Proof.
  unfold parse_pdf. destruct (pdf_pages pdf) as [raw|e]; simpl; [|discriminate].
  intros [= <-] Hin. apply list_elem_of_filter in Hin as [Hne Hin].
  apply list_elem_of_fmap in Hin as (it & -> & _). simpl in *.
  split; [apply clean_text_idempotent|].
  apply negb_prop_elim in Hne. intros Heq. apply Hne.
  apply bool_decide_pack. exact Heq.
Qed.

(** The two windows of a text of 2000 characters. *)
Lemma chunk_loop_2000 fuel t :
  len t = 2000 ->
  chunk_loop (S (S fuel)) t default_max_chars default_overlap 0 []
  = Ok [slice t 0 1400; slice t 1200 2000].
Proof.
  intros HL. unfold default_max_chars, default_overlap.
  cbn [chunk_loop]. rewrite HL. reflexivity.
Qed.

(** C4, as amended: for every window with [0 <= overlap < max_chars] (the
    default 1400 and 200 among them) and every text whose cleaned form is
    longer than [max_chars], [chunk_text] returns chunks such that every
    position of the cleaned text lies in one of them and none is longer
    than [max_chars]; and a cleaned text that is not empty and not longer
    than [max_chars] is returned whole, as the one chunk. *)
Theorem chunk_text_covers text m o :
  0 <= o -> o < m ->
  chunks_cover text m o /\
  (clean_text text <> [] -> len (clean_text text) <= m ->
   forall fuel, chunk_text fuel text m o = Ok [clean_text text]).
Proof.
  intros Ho Hom. split; [|intros Hne Hm fuel; apply chunk_text_short; assumption].
  unfold chunks_cover. intros Hm.
  assert (Hne : clean_text text <> []).
  { intros Heq. rewrite Heq in Hm. unfold len in Hm. simpl in Hm. lia. }
  destruct (chunk_text_long text m o Hom Hm Hne) as (ws & Hws & Hrun).
  exists (S (length (clean_text text))), (map (cut (clean_text text)) ws).
  split; [apply Hrun; lia|]. split.
  - intros p [Hp0 HpL].
    destruct (windows_cover _ _ _ _ _ Hws Ho p) as (n & w & Hn & Hw1 & Hw2);
      [lia|lia|lia|].
    destruct (windows_inside _ _ _ _ _ Hws Ho Hom (Z.le_refl 0) w) as (? & ? & ? & ?).
    { apply list_elem_of_lookup. eauto. }
    apply (cut_covers _ ws n w); auto with lia.
  - intros c Hc. apply list_elem_of_fmap in Hc as (w & -> & Hw).
    destruct (windows_inside _ _ _ _ _ Hws Ho Hom (Z.le_refl 0) w Hw) as (? & ? & ? & ?).
    unfold cut. rewrite len_slice by lia. lia.
Qed.

Lemma chunk_text_covers_witness :
  chunks_cover (lit "abcdefghij") 4 1 /\
  (clean_text (lit "abcdefghij") <> [] ->
   len (clean_text (lit "abcdefghij")) <= 4 ->
   forall fuel,
     chunk_text fuel (lit "abcdefghij") 4 1 = Ok [clean_text (lit "abcdefghij")]).
Proof. apply (chunk_text_covers (lit "abcdefghij") 4 1); lia. Defined.

(** C4, as stated, fails where the window does not move forward: with
    [max_chars = 2] and the default overlap of 200 the three characters of
    ["abc"] are longer than the window and [chunk_text] never returns, so
    that there is no chunk to hold any position. *)
Lemma chunks_cover_counterexample :
  ~ chunks_cover (lit "abc") 2 default_overlap.
Proof.
  unfold chunks_cover. intros H.
  destruct H as (fuel & out & Hrun & _); [vm_compute; reflexivity|].
  unfold chunk_text in Hrun.
  change (clean_text (lit "abc")) with (lit "abc") in Hrun.
  simpl in Hrun. rewrite chunk_loop_stuck in Hrun;
    [discriminate|unfold default_overlap; lia|vm_compute; reflexivity
    |vm_compute; reflexivity].
Qed.

(** C5: when the cleaned text is longer than [max_chars], what
    [chunk_text] returns are the chunks of windows of which the first
    starts at 0, each ends [max_chars] after its start or at the end of
    the text, and the next starts at [max 0 (end - overlap)]; whenever
    [overlap < max_chars] it does return; a text of 2000 cleaned
    characters gives, with the default window, the two chunks [0, 1400)
    and [1200, 2000); and the build of one document with one such page
    writes exactly two rows, numbered 1 and 2. *)
Theorem chunk_text_slides text :
  let t := clean_text text in
  (forall m o fuel out,
     m < len t -> t <> [] -> chunk_text fuel text m o = Ok out ->
     exists ws,
       out = map (cut t) ws /\
       (forall w, ws !! 0%nat = Some w -> w.1 = 0) /\
       (forall n w, ws !! n = Some w -> w.2 = Z.min (len t) (w.1 + m)) /\
       (forall n w w', ws !! n = Some w -> ws !! S n = Some w' ->
                       w'.1 = Z.max 0 (w.2 - o))) /\
  (forall m o, o < m -> terminates text m o) /\
  (len t = 2000 ->
     chunk_text_default text = Ok [slice t 0 1400; slice t 1200 2000]) /\
  (len t = 2000 ->
     forall encode1 emb_dim name,
     exists art,
       main encode1 emb_dim
         [{| pdf_name := name; pdf_pages := Returns [Some text] |}] = Ok art /\
       map chunk_no (meta_parquet art) = [1; 2] /\
       map Build.text (meta_parquet art) = [slice t 0 1400; slice t 1200 2000]).
Proof.
  intros t. subst t. split; [|split; [|split]].
  - intros m o fuel out Hm Hne. unfold chunk_text.
    rewrite bool_decide_eq_false_2 by exact Hne.
    destruct (Z.leb_spec (len (clean_text text)) m) as [|_]; [lia|].
    intros Hrun. apply chunk_loop_windows in Hrun as (ws & Hws & ->).
    exists ws. split; [reflexivity|]. split; [|split].
    + intros w Hw. apply (windows_head _ _ _ _ _ _ Hws Hw).
    + apply (windows_end _ _ _ _ _ Hws).
    + apply (windows_step _ _ _ _ _ Hws).
  - intros m o Hom. unfold terminates.
    exists (S (length (clean_text text))). unfold chunk_text.
    destruct (bool_decide (clean_text text = [])); [eauto|].
    destruct (len (clean_text text) <=? m); [eauto|].
    apply chunk_loop_returns; [exact Hom|lia|unfold len; lia].
  - intros HL. unfold chunk_text_default, chunk_text.
    rewrite bool_decide_eq_false_2
      by (intros Heq; rewrite Heq in HL; discriminate).
    rewrite HL. change (2000 <=? default_max_chars) with false. cbv iota.
    pose proof (length_clean_text text) as Hlen. unfold len in HL.
    destruct (length text) as [|k]; [lia|].
    rewrite chunk_loop_2000; [reflexivity|unfold len; exact HL].
  - intros HL encode1 emb_dim name.
    assert (Hne : clean_text text <> [])
      by (intros Heq; rewrite Heq in HL; discriminate).
    assert (Hck : chunk_text_default (clean_text text)
                  = Ok [slice (clean_text text) 0 1400;
                        slice (clean_text text) 1200 2000]).
    { unfold chunk_text_default, chunk_text. rewrite clean_text_idempotent.
      rewrite bool_decide_eq_false_2 by exact Hne.
      rewrite HL. change (2000 <=? default_max_chars) with false. cbv iota.
      unfold len in HL.
      destruct (length (clean_text text)) as [|[|k]] eqn:Hk; [lia|lia|].
      rewrite chunk_loop_2000; [reflexivity|unfold len; lia]. }
    eexists. unfold main, pdf_rows, parse_pdf. simpl.
    rewrite filter_cons_True
      by (simpl; rewrite bool_decide_eq_false_2 by exact Hne; exact I).
    rewrite filter_nil. simpl. unfold page_rows. simpl. rewrite Hck. simpl.
    split; [reflexivity|]. split; reflexivity.
Qed.

(** C7, as stated, fails: with [max_chars = 1] and [overlap = 1] the loop
    of [chunk_text] on ["ab"] takes the window [0, 1) again and again, and
    no amount of fuel lets it return. *)
Lemma terminates_counterexample : ~ terminates (lit "ab") 1 1.
Proof.
  unfold terminates. intros (fuel & out & Hrun).
  unfold chunk_text in Hrun.
  change (clean_text (lit "ab")) with (lit "ab") in Hrun. simpl in Hrun.
  rewrite chunk_loop_stuck in Hrun;
    [discriminate|lia|vm_compute; reflexivity|vm_compute; reflexivity].
Qed.

(** C7, as amended: [chunk_text] returns exactly when the cleaned text is
    empty or not longer than [max_chars], or [overlap < max_chars] (as
    with the default 1400 and 200); with [0 <= overlap < max_chars] the
    loop on a longer text stops at the first window whose end reaches
    the length of the text; and when [overlap <= max_chars], a page (of
    [parse_pdf], so its cleaned text is not empty) whose text is shorter
    than [overlap] gives exactly one chunk, the page itself. *)
Theorem chunk_text_terminates text m o :
  (terminates text m o <->
   clean_text text = [] \/ len (clean_text text) <= m \/ o < m) /\
  (0 <= o -> o < m -> m < len (clean_text text) ->
   exists ws,
     (forall fuel, (length (clean_text text) < fuel)%nat ->
        chunk_text fuel text m o = Ok (map (cut (clean_text text)) ws)) /\
     (exists s, last ws = Some (s, len (clean_text text))) /\
     (forall n w, ws !! n = Some w -> (S n < length ws)%nat ->
                  w.2 < len (clean_text text))) /\
  (o <= m ->
   forall pdf pages page fuel,
     parse_pdf pdf = Ok pages -> page ∈ pages -> len page.2 < o ->
     chunk_text fuel page.2 m o = Ok [page.2]).
Proof.
  split; [|split].
  - split.
    + intros (fuel & out & Hrun).
      destruct (decide (clean_text text = [])) as [|Hne]; [auto|].
      destruct (Z_le_gt_dec (len (clean_text text)) m) as [|Hm]; [auto|].
      destruct (Z_lt_le_dec o m) as [|Hmo]; [auto|]. exfalso.
      unfold chunk_text in Hrun.
      rewrite bool_decide_eq_false_2 in Hrun by exact Hne.
      destruct (Z.leb_spec (len (clean_text text)) m) as [|_]; [lia|].
      rewrite chunk_loop_stuck in Hrun; [discriminate|lia|lia|].
      destruct (clean_text text); [contradiction|unfold len; simpl; lia].
    + intros H. unfold terminates.
      exists (S (length (clean_text text))). unfold chunk_text.
      destruct (decide (clean_text text = [])) as [Heq|Hne].
      { rewrite bool_decide_eq_true_2 by exact Heq. eauto. }
      rewrite bool_decide_eq_false_2 by exact Hne.
      destruct (Z.leb_spec (len (clean_text text)) m) as [|Hm]; [eauto|].
      destruct H as [H|[H|H]]; [contradiction|lia|].
      apply chunk_loop_returns; [exact H|lia|unfold len; lia].
  - intros Ho Hom Hm.
    assert (Hne : clean_text text <> []).
    { intros Heq. rewrite Heq in Hm. unfold len in Hm. simpl in Hm. lia. }
    destruct (chunk_text_long text m o Hom Hm Hne) as (ws & Hws & Hrun).
    exists ws. split; [exact Hrun|]. split.
    + apply (windows_last_end _ _ _ _ _ Hws Ho); lia.
    + apply (windows_before_last _ _ _ _ _ Hws).
  - intros Hom pdf pages page fuel Hparse Hin Hlen.
    destruct (parse_pdf_pages _ _ _ Hparse Hin) as [Hclean Hne].
    pose proof (chunk_text_short page.2 m o fuel) as Hshort.
    rewrite Hclean in Hshort. apply Hshort; [exact Hne|lia].
Qed.

End Chunking.

(** ** The offline build *)

Section BuildMain.
Import Build.
Variable encode1 : str -> vec.
Variable emb_dim : Z.

Lemma for_each_ends {A B} (body : A -> result (list B)) (l : list A) :
  (forall x, body x <> NoFuel) -> for_each body l <> NoFuel.
Proof.
  intros Hbody. induction l as [|x l IH]; simpl; [discriminate|].
  specialize (Hbody x). destruct (body x); simpl; try congruence.
  destruct (for_each body l); simpl; congruence.
Qed.

Lemma page_rows_ends pdf page : page_rows pdf page <> NoFuel.
Proof.
  unfold page_rows. destruct (chunk_text_default_returns page.2) as [out ->].
  discriminate.
Qed.

Lemma pdf_rows_ends pdf : pdf_rows pdf <> NoFuel.
Proof.
  unfold pdf_rows, parse_pdf. destruct (pdf_pages pdf); simpl; [|discriminate].
  apply for_each_ends, page_rows_ends.
Qed.

(** C8: the build ends, and when it has written its artifacts the index
    holds as many vectors as the metadata table has rows, the vector at
    position [i] being the encoding of the text of row [i]. *)
Theorem main_join_integrity pdfs :
  main encode1 emb_dim pdfs <> NoFuel /\
  forall art, main encode1 emb_dim pdfs = Ok art ->
    length (vectors (faiss_index art)) = length (meta_parquet art) /\
    forall i : nat,
      vectors (faiss_index art) !! i
      = (fun r => encode1 (text r)) <$> meta_parquet art !! i.
Proof.
  unfold main. destruct (bool_decide (pdfs = [])).
  { split; [discriminate|]. intros art [=]. }
  pose proof (for_each_ends pdf_rows pdfs pdf_rows_ends) as Hends.
  destruct (for_each pdf_rows pdfs) as [rows|e|]; simpl; [| |contradiction].
  - destruct (bool_decide (encode encode1 (map text rows) = [])).
    { split; [discriminate|]. intros art [=]. }
    split; [discriminate|]. intros art [= <-]. simpl. unfold encode. split.
    + rewrite !length_map. reflexivity.
    + intros i. rewrite !list_lookup_fmap. destruct (rows !! i); reflexivity.
  - split; [discriminate|]. intros art [=].
Qed.

End BuildMain.

(** ** Loading the index *)

Section Loading.
Import App.

(** C9: when the index file or the metadata file is missing,
    [load_index_and_meta] raises the error whose message tells to run the
    build ([Run: py build_data.py]); when both are there it does what the
    two readers do, so that, the readers not raising that very error
    themselves, a missing file is the only way to it. *)
Theorem load_index_and_meta_not_built d :
  (faiss_index_file d = None \/ meta_parquet_file d = None ->
   load_index_and_meta d = Raise (RuntimeError index_not_found)) /\
  (forall ri rp,
     faiss_index_file d = Some ri -> meta_parquet_file d = Some rp ->
     load_index_and_meta d
     = (index ← ext ri; meta ← ext rp; Ok (index, meta))) /\
  (faiss_index_file d <> Some (Raises (RuntimeError index_not_found)) ->
   meta_parquet_file d <> Some (Raises (RuntimeError index_not_found)) ->
   (load_index_and_meta d = Raise (RuntimeError index_not_found) <->
    faiss_index_file d = None \/ meta_parquet_file d = None)) /\
  contains (lit "Run: py build_data.py") index_not_found = true.
Proof.
  unfold load_index_and_meta. split; [|split; [|split]].
  - intros [-> | ->]; [reflexivity|]. destruct (faiss_index_file d); reflexivity.
  - intros ri rp -> ->. reflexivity.
  - intros Hi Hm. split.
    + destruct (faiss_index_file d) as [[index|e]|]; [| |auto];
        destruct (meta_parquet_file d) as [[meta|e']|]; simpl; auto;
        try discriminate; intros [= ->]; congruence.
    + intros [-> | ->]; [reflexivity|].
      destruct (faiss_index_file d); reflexivity.
  - vm_compute. reflexivity.
Qed.

End Loading.

(** ** The link matcher *)

Section LinkMatcher.
Import App.
Variable lower : str -> str.
Implicit Types (ev : list evidence) (s : scheme) (db : list scheme).

Lemma existsb_nonempty {A} `{EqDecision A} (P : A -> bool) (l : list A) :
  negb (bool_decide (l = [])) && existsb P l = existsb P l.
Proof. destruct l; reflexivity. Qed.

Lemma existsb_ext_iff {A B} (P : A -> bool) (Q : B -> bool) la lb :
  ((exists a, In a la /\ P a = true) <-> (exists b, In b lb /\ Q b = true)) ->
  existsb P la = existsb Q lb.
Proof.
  intros H. apply eq_true_iff_eq. rewrite !existsb_exists. exact H.
Qed.

(** Membership in the set of the lowered names of the evidence. *)
Lemma in_evidence_set (f : evidence -> str) ev (x : str) :
  bool_decide (x ∈ (list_to_set (map f ev) : gset str))
  = existsb (fun e => bool_decide (x = f e)) ev.
Proof.
  apply eq_true_iff_eq. rewrite existsb_exists.
  rewrite bool_decide_eq_true, elem_of_list_to_set, list_elem_of_fmap.
  split.
  - intros (e & -> & He). exists e. split; [apply list_elem_of_In, He|].
    apply bool_decide_eq_true. reflexivity.
  - intros (e & He & Hx). exists e. apply bool_decide_eq_true in Hx.
    split; [exact Hx|apply list_elem_of_In, He].
Qed.

Lemma existsb_in_evidence_set (f : evidence -> str) ev (ds : list str) :
  existsb (fun x => bool_decide (x ∈ (list_to_set (map f ev) : gset str)))
    (map lower ds)
  = existsb (fun x => existsb (fun e => bool_decide (lower x = f e)) ev) ds.
Proof.
  induction ds as [|x ds IH]; simpl; [reflexivity|].
  rewrite IH, in_evidence_set. reflexivity.
Qed.

Lemma existsb_elements_evidence (f : evidence -> str) ev (P : str -> bool) :
  existsb P (elements (list_to_set (map f ev) : gset str))
  = existsb (fun e => P (f e)) ev.
Proof.
  apply existsb_ext_iff. split.
  - intros (x & Hx & HP). apply list_elem_of_In, elem_of_elements in Hx.
    apply elem_of_list_to_set, list_elem_of_fmap in Hx as (e & -> & He).
    exists e. split; [apply list_elem_of_In, He|exact HP].
  - intros (e & He & HP). exists (f e). split; [|exact HP].
    apply list_elem_of_In, elem_of_elements, elem_of_list_to_set.
    apply list_elem_of_fmap. exists e. split; [reflexivity|].
    apply list_elem_of_In, He.
Qed.

(** What the loop decides for an entry is what the three rules say. *)
Lemma scheme_found_rules ev s :
  scheme_found lower
    (list_to_set (map (fun e => lower (doc_id e)) ev))
    (list_to_set (map (fun e => lower (file_name e)) ev)) s
  = entry_matches lower ev s.
Proof.
  unfold scheme_found, entry_matches, rule_doc_id, rule_file_name,
    rule_scheme_name.
  rewrite !existsb_nonempty, !existsb_in_evidence_set.
  rewrite existsb_elements_evidence.
  destruct (existsb _ (doc_ids s)); [reflexivity|].
  destruct (existsb _ (file_names s)); [reflexivity|].
  destruct (_ && _); reflexivity.
Qed.

(** The loop keeps, in order, the entries for which [found] is set. *)
Lemma fold_left_filter {A} (p : A -> bool) (l acc : list A) :
  fold_left (fun matched x => if p x then matched ++ [x] else matched) l acc
  = acc ++ filter (fun x => p x) l.
Proof.
  revert acc. induction l as [|x l IH]; intros acc; simpl.
  - rewrite app_nil_r. reflexivity.
  - rewrite IH. destruct (p x) eqn:Hp.
    + rewrite filter_cons_True by (rewrite Hp; exact I).
      rewrite <- app_assoc. reflexivity.
    + rewrite filter_cons_False by (rewrite Hp; exact id). reflexivity.
Qed.

(** A filter picks positions of the list, each once and in their order. *)
Lemma filter_positions {A} (p : A -> bool) (l : list A) :
  exists positions : list nat,
    StronglySorted lt positions /\
    Forall2 (fun i x => l !! i = Some x) positions (filter (fun x => p x) l).
Proof.
  induction l as [|x l (positions & Hsorted & Hall)].
  - exists []. split; constructor.
  - assert (Hshift : Forall2 (fun i y => (x :: l) !! i = Some y)
                       (map S positions) (filter (fun y => p y) l)).
    { apply Forall2_fmap_l. exact Hall. }
    assert (Hsorted' : StronglySorted lt (map S positions)).
    { clear -Hsorted. induction Hsorted as [|i js _ IH Hlt]; simpl; constructor;
        [exact IH|]. apply Forall_fmap. eapply Forall_impl; [exact Hlt|].
      simpl. intros j Hj. lia. }
    destruct (p x) eqn:Hp.
    + rewrite filter_cons_True by (rewrite Hp; exact I).
      exists (0%nat :: map S positions). split.
      * constructor; [exact Hsorted'|]. apply Forall_fmap, Forall_true.
        simpl. intros j. lia.
      * constructor; [reflexivity|exact Hshift].
    + rewrite filter_cons_False by (rewrite Hp; exact id).
      exists (map S positions). split; assumption.
Qed.

Lemma match_links_filter d ev db :
  load_scheme_links d = Ok db ->
  match_links_from_evidence lower d ev
  = Ok (filter (fun s => entry_matches lower ev s) db).
Proof.
  intros Hdb. unfold match_links_from_evidence. rewrite Hdb. simpl.
  destruct (decide (db = [])) as [->|Hne].
  - reflexivity.
  - rewrite bool_decide_eq_false_2 by exact Hne.
    rewrite fold_left_filter. simpl. do 2 f_equal.
    apply list_filter_iff. intros s. rewrite scheme_found_rules. reflexivity.
Qed.

(** C3: for every evidence and every links database, the matcher returns
    the entries of the database that the three rules, tried in order,
    include, in the order of the database; so what it returns is a
    subsequence of the database that takes no position of it twice (and
    so holds no entry twice when the database holds none twice), an entry
    that one of the rules includes is returned whatever the other rules
    say, and an empty database gives an empty result. *)
Theorem match_links_subsequence d ev db :
  load_scheme_links d = Ok db ->
  exists out,
    match_links_from_evidence lower d ev = Ok out /\
    out = filter (fun s => entry_matches lower ev s) db /\
    out `sublist_of` db /\
    (exists positions : list nat,
       StronglySorted lt positions /\
       Forall2 (fun i s => db !! i = Some s) positions out) /\
    (NoDup db -> NoDup out) /\
    (forall s, s ∈ db -> rule_doc_id lower ev s = true -> s ∈ out) /\
    (forall s, s ∈ db -> rule_file_name lower ev s = true -> s ∈ out) /\
    (forall s, s ∈ db -> rule_scheme_name lower ev s = true -> s ∈ out) /\
    (db = [] -> out = []).
Proof.
  intros Hdb. eexists. split; [apply match_links_filter, Hdb|].
  split; [reflexivity|]. split; [apply sublist_filter|].
  split; [apply filter_positions|].
  split; [intros Hnd; eapply sublist_NoDup; [exact Hnd|apply sublist_filter]|].
  unfold entry_matches.
  repeat split; try (intros s Hs Hrule; apply list_elem_of_filter;
                     split; [|exact Hs]; rewrite ?Hrule).
  - exact I.
  - destruct (rule_doc_id lower ev s); exact I.
  - destruct (rule_doc_id lower ev s); [exact I|].
    destruct (rule_file_name lower ev s); exact I.
  - intros ->. reflexivity.
Qed.

(** C10: two evidence lists with the same lowered document ids and the
    same lowered file names, whatever their order, their repetitions and
    their other fields, get the same links. *)
Theorem match_links_depends_on_names d ev1 ev2 :
  (forall x, x ∈ map (fun e => lower (doc_id e)) ev1 <->
             x ∈ map (fun e => lower (doc_id e)) ev2) ->
  (forall x, x ∈ map (fun e => lower (file_name e)) ev1 <->
             x ∈ map (fun e => lower (file_name e)) ev2) ->
  match_links_from_evidence lower d ev1 = match_links_from_evidence lower d ev2.
Proof.
  intros Hids Hfiles. unfold match_links_from_evidence.
  assert (Hi : (list_to_set (map (fun e => lower (doc_id e)) ev1) : gset str)
               = list_to_set (map (fun e => lower (doc_id e)) ev2)).
  { apply set_eq. intros x. rewrite !elem_of_list_to_set. apply Hids. }
  assert (Hf : (list_to_set (map (fun e => lower (file_name e)) ev1) : gset str)
               = list_to_set (map (fun e => lower (file_name e)) ev2)).
  { apply set_eq. intros x. rewrite !elem_of_list_to_set. apply Hfiles. }
  rewrite Hi, Hf. reflexivity.
Qed.

End LinkMatcher.

(** Runs of the matcher, with the lowering of ASCII letters. *)

Example match_links_ex :
  App.match_links_from_evidence lower_ascii ex_disk ex_ev1
  = Ok [ex_scheme "a" "Aasara Pensions" ["GO_43"%string] [];
        ex_scheme "b" "Kalyana Lakshmi" [] ["go_43.pdf"%string];
        ex_scheme "c" "pension" [] []].
Proof. vm_compute. reflexivity. Qed.

Lemma match_links_subsequence_witness :
  exists out,
    App.match_links_from_evidence lower_ascii ex_disk ex_ev1 = Ok out /\
    out = filter (fun s => App.entry_matches lower_ascii ex_ev1 s) ex_links /\
    out `sublist_of` ex_links /\
    (exists positions : list nat,
       StronglySorted lt positions /\
       Forall2 (fun i s => ex_links !! i = Some s) positions out) /\
    (NoDup ex_links -> NoDup out) /\
    (forall s, s ∈ ex_links -> App.rule_doc_id lower_ascii ex_ev1 s = true -> s ∈ out) /\
    (forall s, s ∈ ex_links -> App.rule_file_name lower_ascii ex_ev1 s = true -> s ∈ out) /\
    (forall s, s ∈ ex_links -> App.rule_scheme_name lower_ascii ex_ev1 s = true -> s ∈ out) /\
    (ex_links = [] -> out = []).
Proof.
  apply (match_links_subsequence lower_ascii ex_disk ex_ev1 ex_links).
  reflexivity.
Defined.

Lemma match_links_depends_on_names_witness :
  App.match_links_from_evidence lower_ascii ex_disk ex_ev1
  = App.match_links_from_evidence lower_ascii ex_disk ex_ev2.
Proof.
  apply (match_links_depends_on_names lower_ascii ex_disk ex_ev1 ex_ev2);
    intros x; rewrite !list_elem_of_In; vm_compute; tauto.
Defined.


(** ** Retrieval *)

Section RetrievalFacts.
Import App.
Variable embed_query : str -> Build.vec.
Variable search : Build.index -> Build.vec -> Z -> list float * list Z.

Lemma enumerate_lookup {A} (k : Z) (l : list A) (i : nat) :
  enumerate k l !! i = (fun x => (k + Z.of_nat i, x)) <$> l !! i.
Proof.
  revert k i. induction l as [|x l IH]; intros k i; [destruct i; reflexivity|].
  destruct i; simpl.
  - rewrite Z.add_0_r. reflexivity.
  - rewrite IH. destruct (l !! i); simpl; [|reflexivity].
    do 2 f_equal. lia.
Qed.

(** A loop whose body gives one item for every element gives the items in
    the order of the elements. *)
Lemma for_each_items {A B} (body : A -> result (list B)) (R : A -> B -> Prop)
    (l : list A) :
  (forall x, x ∈ l -> exists y, body x = Ok [y] /\ R x y) ->
  exists ys, for_each body l = Ok ys /\ Forall2 R l ys.
Proof.
  induction l as [|x l IH]; intros Hbody; simpl.
  - exists []. split; [reflexivity|constructor].
  - destruct (Hbody x) as (y & -> & Hy); [left|].
    destruct IH as (ys & -> & Hys).
    { intros x' Hx'. apply Hbody. right. exact Hx'. }
    exists (y :: ys). split; [reflexivity|]. constructor; assumption.
Qed.

(** A position that the index may return has a row. *)
Lemma iloc_label (meta : list Build.row) (id : Z) :
  meta <> [] -> -1 <= id < len meta -> exists r, iloc meta id = Ok r.
Proof.
  intros Hne Hid. unfold iloc.
  assert (0 < len meta) by (destruct meta; [contradiction|unfold len; simpl; lia]).
  set (j := if id <? 0 then id + len meta else id).
  assert (Hj : 0 <= j < len meta).
  { unfold j. destruct (Z.ltb_spec id 0); lia. }
  destruct (Z.leb_spec 0 j); [|lia]. destruct (Z.ltb_spec j (len meta)); [|lia].
  simpl. destruct (meta !! Z.to_nat j) as [r|] eqn:Hr; [eauto|].
  apply lookup_ge_None in Hr. unfold len in Hj. lia.
Qed.

(** C2: on an index and a metadata table that the build wrote (as many
    rows as vectors, and not none), and given of faiss what it documents
    of a search, [retrieve] returns, for every query and every
    [top_k >= 1], evidence of at most [top_k] items (of [top_k] items, in
    fact) whose scores do not increase from one position to a later one,
    the item at position [i] carrying the [i]-th score and the row that
    [meta.iloc] gives for the [i]-th label. *)
Theorem retrieve_ordered d query top_k index meta :
  1 <= top_k ->
  faiss_index_file d = Some (Returns index) ->
  meta_parquet_file d = Some (Returns meta) ->
  length (Build.vectors index) = length meta -> meta <> [] ->
  faiss_result index top_k (search index (embed_query query) top_k) ->
  exists out,
    retrieve embed_query search d query top_k = Ok out /\
    len out <= top_k /\ len out = top_k /\
    (forall (i j : nat) ei ej,
       (i <= j)%nat -> out !! i = Some ei -> out !! j = Some ej ->
       (score ej <=? score ei)%float = true) /\
    (forall (i : nat) e,
       out !! i = Some e ->
       exists id r,
         (search index (embed_query query) top_k).2 !! i = Some id /\
         (search index (embed_query query) top_k).1 !! i = Some (score e) /\
         iloc meta id = Ok r /\
         doc_id e = Build.doc_id r /\ file_name e = Build.file_name r /\
         page_no e = Build.page_no r /\ text e = Build.text r).
Proof.
  intros Hk Hindex Hmeta Hrows Hne (Hls & Hli & Hsorted & Hids).
  unfold retrieve, load_index_and_meta. rewrite Hindex, Hmeta. simpl.
  set (res := search index (embed_query query) top_k) in *.
  destruct (for_each_items
    (fun it : Z * Z =>
       r ← iloc meta it.2; sc ← at_ res.1 it.1;
       Ok [{| score := sc; doc_id := Build.doc_id r;
              file_name := Build.file_name r; page_no := Build.page_no r;
              text := Build.text r |}])
    (fun it e =>
       exists r, res.1 !! Z.to_nat it.1 = Some (score e) /\
                 iloc meta it.2 = Ok r /\
                 doc_id e = Build.doc_id r /\ file_name e = Build.file_name r /\
                 page_no e = Build.page_no r /\ text e = Build.text r)
    (enumerate 0 res.2)) as (out & Hout & Hall).
  { intros [i id] Hin. apply list_elem_of_lookup in Hin as [n Hn].
    rewrite enumerate_lookup in Hn.
    destruct (res.2 !! n) as [id'|] eqn:Hid; [|discriminate].
    simpl in Hn. injection Hn as <- <-. simpl.
    destruct (iloc_label meta id' Hne) as [r Hr].
    { unfold len in *. rewrite <- Hrows. apply Hids.
      apply list_elem_of_lookup. eauto. }
    rewrite Hr. simpl. unfold at_.
    replace (Z.to_nat (0 + Z.of_nat n)) with n by lia.
    destruct (res.1 !! n) as [sc|] eqn:Hsc.
    - simpl. eexists. split; [reflexivity|]. exists r. simpl. auto 10.
    - apply lookup_ge_None in Hsc. apply lookup_lt_Some in Hid. lia. }
  exists out. split; [exact Hout|].
  assert (Hlen : length out = Z.to_nat top_k).
  { rewrite <- (Forall2_length _ _ _ Hall). rewrite <- Hli.
    clear. generalize 0. induction res.2; intros k; simpl; auto. }
  split; [unfold len; lia|]. split; [unfold len; lia|].
  assert (Hitem : forall (i : nat) e, out !! i = Some e ->
            exists id r, res.2 !! i = Some id /\ res.1 !! i = Some (score e) /\
              iloc meta id = Ok r /\
              doc_id e = Build.doc_id r /\ file_name e = Build.file_name r /\
              page_no e = Build.page_no r /\ text e = Build.text r).
  { intros i e He.
    destruct (Forall2_lookup_r _ _ _ _ _ Hall He) as ([n id] & Hn & r & Hsc & Hr).
    rewrite enumerate_lookup in Hn.
    destruct (res.2 !! i) as [id'|] eqn:Hid; [|discriminate].
    simpl in Hn. injection Hn as <- <-. simpl in Hsc, Hr.
    replace (Z.to_nat (0 + Z.of_nat i)) with i in Hsc by lia.
    exists id', r. auto. }
  split; [|exact Hitem].
  intros i j ei ej Hij Hi Hj.
  destruct (Hitem i ei Hi) as (_ & _ & _ & Hsi & _).
  destruct (Hitem j ej Hj) as (_ & _ & _ & Hsj & _).
  apply (Hsorted i j _ _ Hij Hsi Hsj).
Qed.

End RetrievalFacts.

(** ** Comparing scores *)

Section Scores.

Lemma SFcompare_antisym x y :
  SFcompare y x = option_map CompOpp (SFcompare x y).
Proof.
  destruct x as [sx|sx| |sx mx ex], y as [sy|sy| |sy my ey]; simpl;
    try reflexivity; try (destruct sx; reflexivity);
    try (destruct sy; reflexivity);
    try (destruct sx, sy; reflexivity).
  destruct sx, sy; simpl; try reflexivity; f_equal;
    rewrite (Z.compare_antisym ex ey);
    destruct (ex ?= ey)%Z; simpl; try reflexivity;
    rewrite (Pos.compare_cont_antisym mx my Eq); reflexivity.
Qed.

Lemma not_nan_spec (x : float) :
  is_nan x = false -> Prim2SF x <> S754_nan.
Proof.
  unfold is_nan. rewrite FloatAxioms.eqb_spec. intros H Hx.
  rewrite Hx in H. discriminate.
Qed.

(** For scores that are numbers, [x < y] is the contrary of [y <= x]. *)
Lemma ltb_negb_leb (x y : float) :
  is_nan x = false -> is_nan y = false ->
  (x <? y)%float = negb (y <=? x)%float.
Proof.
  intros Hx%not_nan_spec Hy%not_nan_spec.
  rewrite FloatAxioms.ltb_spec, FloatAxioms.leb_spec.
  unfold SFltb, SFleb. rewrite (SFcompare_antisym (Prim2SF x) (Prim2SF y)).
  destruct (Prim2SF x) as [sx|sx| |sx mx ex]; [| |contradiction|];
    destruct (Prim2SF y) as [sy|sy| |sy my ey]; try contradiction; simpl;
    try reflexivity; try (destruct sx; reflexivity);
    try (destruct sy; reflexivity); try (destruct sx, sy; reflexivity).
  destruct sx, sy; simpl; try reflexivity;
    destruct (ex ?= ey)%Z; simpl; try reflexivity;
    destruct (Pos.compare_cont Eq mx my); reflexivity.
Qed.

End Scores.

(** ** The query handler *)

Section HandlerFacts.
Import App.
Variable embed_query : str -> Build.vec.
Variable search : Build.index -> Build.vec -> Z -> list float * list Z.
Variable lower : str -> str.
Variable api_key : option str.
Variable generate_content : str -> external (option str).
Variable d : disk.

Local Abbreviation handler :=
  (handler embed_query search lower api_key generate_content d).
Local Abbreviation llm_answer := (llm_answer api_key generate_content).
Local Abbreviation links_and_evidence := (links_and_evidence lower d).
Local Abbreviation retrieve := (retrieve embed_query search d).

(** A rejected retrieval ends the handler at [st.stop()]. *)
Lemma handler_rejected inp ev :
  retrieve (query_of inp) (in_top_k inp) = Ok ev ->
  gate_rejects ev = true ->
  handler inp
  = Run [Retrieve (query_of inp) (in_top_k inp);
         StError (lit "NOT FOUND");
         StCaptionBestScore (best_score_of ev)]
        (Raise StopException).
Proof.
  intros Hret Hgate. unfold App.handler. rewrite Hret.
  unfold mbind, ui_bind, call. cbn [outcome trace]. rewrite Hgate.
  reflexivity.
Qed.

(** An accepted retrieval goes on to the answerer, then writes the answer
    and goes on to the links. *)
Lemma handler_accepted inp ev :
  retrieve (query_of inp) (in_top_k inp) = Ok ev ->
  gate_rejects ev = false ->
  handler inp
  = match outcome (llm_answer (profile_of inp) ev) with
    | Ok answer =>
        Run (started inp ev ++ trace (llm_answer (profile_of inp) ev)
             ++ [StWrite answer] ++ trace (links_and_evidence ev))
            (outcome (links_and_evidence ev))
    | Raise e =>
        Run (started inp ev ++ trace (llm_answer (profile_of inp) ev)) (Raise e)
    | NoFuel =>
        Run (started inp ev ++ trace (llm_answer (profile_of inp) ev)) NoFuel
    end.
Proof.
  intros Hret Hgate. unfold App.handler. rewrite Hret.
  unfold mbind, ui_bind, call, emit, started. cbn [outcome trace].
  rewrite Hgate. cbn [outcome trace].
  destruct (outcome (llm_answer (profile_of inp) ev)); reflexivity.
Qed.

(** The links part starts with the call of the matcher. *)
Lemma links_and_evidence_calls ev :
  exists rest, trace (links_and_evidence ev) = MatchLinks ev :: rest.
Proof.
  unfold App.links_and_evidence, mbind, ui_bind, call. cbn [outcome trace].
  destruct (match_links_from_evidence lower d ev); cbn [trace app]; eauto.
Qed.

Lemma llm_answer_key_missing p ev :
  default [] api_key = [] -> llm_answer p ev = Run [] (Ok key_missing).
Proof.
  intros Hkey. unfold App.llm_answer.
  rewrite bool_decide_eq_true_2 by exact Hkey. reflexivity.
Qed.

Lemma llm_answer_raises p ev e :
  default [] api_key <> [] ->
  generate_content (prompt_of p (evidence_text ev)) = Raises e ->
  llm_answer p ev
  = Run [GenerateContent (prompt_of p (evidence_text ev))] (Raise e).
Proof.
  intros Hkey Hcall. unfold App.llm_answer.
  rewrite bool_decide_eq_false_2 by exact Hkey.
  unfold mbind, ui_bind, call. cbn [outcome trace]. rewrite Hcall. reflexivity.
Qed.

Lemma llm_answer_returns p ev o :
  default [] api_key <> [] ->
  generate_content (prompt_of p (evidence_text ev)) = Returns o ->
  llm_answer p ev
  = Run [GenerateContent (prompt_of p (evidence_text ev))]
        (Ok (strip (default [] o))).
Proof.
  intros Hkey Hcall. unfold App.llm_answer.
  rewrite bool_decide_eq_false_2 by exact Hkey.
  unfold mbind, ui_bind, call. cbn [outcome trace]. rewrite Hcall. reflexivity.
Qed.

(** The gate, on evidence whose top score is a number. *)
Lemma gate_rejects_spec ev :
  (forall e, head ev = Some e -> is_nan (score e) = false) ->
  gate_rejects ev = false <->
  exists e, head ev = Some e /\ (MIN_SCORE <=? score e)%float = true.
Proof.
  intros Hnum. unfold gate_rejects. destruct ev as [|e rest]; simpl.
  - split; [discriminate|]. intros (e & [=] & _).
  - rewrite (ltb_negb_leb (score e) MIN_SCORE (Hnum e eq_refl) eq_refl).
    rewrite negb_false_iff. split; [eauto|]. intros (e' & [= <-] & H). exact H.
Qed.

(** C1: on the evidence that [retrieve] returned, the gate lets the
    handler go on exactly when the evidence is not empty and its first
    score is not below 0.22, which for a first score that is a number
    says that it is at least 0.22; a first score of exactly 0.22 passes;
    when the gate rejects, the handler shows NOT FOUND and the best
    score, which is the first score or 0.0 for no evidence, and stops
    there, with no call of the answerer and none of the link matcher;
    and when the gate accepts, the handler goes on to the answerer. *)
Theorem confidence_gate inp ev :
  retrieve (query_of inp) (in_top_k inp) = Ok ev ->
  (gate_rejects ev = false <->
   ev <> [] /\ exists e, head ev = Some e /\ (score e <? MIN_SCORE)%float = false) /\
  ((forall e, head ev = Some e -> is_nan (score e) = false) ->
   (gate_rejects ev = false <->
    ev <> [] /\ exists e, head ev = Some e /\ (MIN_SCORE <=? score e)%float = true)) /\
  (forall e, head ev = Some e -> score e = MIN_SCORE -> gate_rejects ev = false) /\
  (gate_rejects ev = true ->
   handler inp
   = Run [Retrieve (query_of inp) (in_top_k inp);
          StError (lit "NOT FOUND");
          StCaptionBestScore (best_score_of ev)]
         (Raise StopException) /\
   best_score_of ev = match head ev with Some e => score e | None => 0%float end /\
   Forall (fun e => calls_answerer e = false /\ calls_matcher e = false)
     (trace (handler inp))) /\
  (gate_rejects ev = false ->
   exists rest, trace (handler inp) = started inp ev ++ rest).
Proof.
  intros Hret. split; [|split; [|split; [|split]]].
  - unfold gate_rejects. destruct ev as [|e rest]; simpl.
    + split; [discriminate|]. intros [H _]. contradiction.
    + split; [intros H; split; [discriminate|eauto]|].
      intros [_ (e' & [= <-] & H)]. exact H.
  - intros Hnum. rewrite (gate_rejects_spec ev Hnum). split.
    + intros (e & He & Hle). split; [|eauto]. intros ->. discriminate.
    + intros [_ H]. exact H.
  - intros e He Hscore. unfold gate_rejects.
    destruct ev as [|e' rest]; [discriminate|]. injection He as ->.
    simpl. rewrite Hscore. reflexivity.
  - intros Hgate. rewrite (handler_rejected inp ev Hret Hgate).
    split; [reflexivity|]. split; [destruct ev; reflexivity|].
    cbn [trace]. repeat constructor.
  - intros Hgate. rewrite (handler_accepted inp ev Hret Hgate).
    destruct (outcome (llm_answer (profile_of inp) ev)); cbn [trace]; eauto.
Qed.

(** C6, as amended: once the gate has accepted the evidence, a missing
    credential makes [llm_answer] return its message, which is not empty
    and is written in the place of the answer, after which the handler
    goes on to the links and the evidence as it does after any answer;
    an exception of the external call is not caught: it ends
    [llm_answer] and the handler, with nothing written as the answer and
    no call of the link matcher; and when the external call returns, the
    answer written is its text, stripped, which is the empty text when
    there is none. The links part begins with the call of the matcher on
    the evidence. *)
Theorem answerer_outcomes inp ev :
  retrieve (query_of inp) (in_top_k inp) = Ok ev ->
  gate_rejects ev = false ->
  (default [] api_key = [] ->
   llm_answer (profile_of inp) ev = Run [] (Ok key_missing) /\
   key_missing <> [] /\
   handler inp
   = Run (started inp ev ++ [StWrite key_missing]
          ++ trace (links_and_evidence ev))
         (outcome (links_and_evidence ev))) /\
  (default [] api_key <> [] -> forall e,
   generate_content (prompt_of (profile_of inp) (evidence_text ev)) = Raises e ->
   handler inp
   = Run (started inp ev
          ++ [GenerateContent (prompt_of (profile_of inp) (evidence_text ev))])
         (Raise e)) /\
  (default [] api_key <> [] -> forall o,
   generate_content (prompt_of (profile_of inp) (evidence_text ev)) = Returns o ->
   handler inp
   = Run (started inp ev
          ++ [GenerateContent (prompt_of (profile_of inp) (evidence_text ev));
              StWrite (strip (default [] o))]
          ++ trace (links_and_evidence ev))
         (outcome (links_and_evidence ev))) /\
  (exists rest, trace (links_and_evidence ev) = MatchLinks ev :: rest).
Proof.
  intros Hret Hgate. split; [|split; [|split]].
  - intros Hkey. split; [apply llm_answer_key_missing, Hkey|].
    split; [discriminate|].
    rewrite (handler_accepted inp ev Hret Hgate).
    rewrite (llm_answer_key_missing _ _ Hkey). reflexivity.
  - intros Hkey e Hcall. rewrite (handler_accepted inp ev Hret Hgate).
    rewrite (llm_answer_raises _ _ e Hkey Hcall). reflexivity.
  - intros Hkey o Hcall. rewrite (handler_accepted inp ev Hret Hgate).
    rewrite (llm_answer_returns _ _ o Hkey Hcall). reflexivity.
  - apply links_and_evidence_calls.
Qed.

End HandlerFacts.

(** ** Runs of the handler on a built index *)

Example retrieve_ex :
  App.retrieve ex_embed ex_search ex_built (App.query_of ex_inputs) 4
  = Ok ex_retrieved.
Proof. vm_compute. reflexivity. Qed.

Example retrieve_far_ex :
  App.retrieve ex_embed ex_search_far ex_built (App.query_of ex_inputs) 4
  = Ok ex_retrieved_far.
Proof. vm_compute. reflexivity. Qed.

Example query_ex :
  App.query_of ex_inputs
  = lit "Telangana age 25 income 150000 category General pension eligibility benefits".
Proof. vm_compute. reflexivity. Qed.

Lemma ex_search_faiss_result :
  App.faiss_result ex_index 4 (ex_search ex_index (ex_embed (App.query_of ex_inputs)) 4).
Proof.
  unfold App.faiss_result, ex_search. cbn [fst snd].
  split; [reflexivity|]. split; [reflexivity|]. split.
  - intros i j si sj Hij Hi Hj.
    destruct i as [|[|[|[|i]]]]; try discriminate;
      destruct j as [|[|[|[|j]]]]; try discriminate; try lia;
      injection Hi as <-; injection Hj as <-; reflexivity.
  - intros id Hid. unfold len. cbn [ex_index Build.vectors length].
    rewrite !elem_of_cons, elem_of_nil in Hid. lia.
Qed.

Lemma retrieve_ordered_witness :
  exists out,
    App.retrieve ex_embed ex_search ex_built (App.query_of ex_inputs) 4 = Ok out /\
    len out <= 4 /\
    (forall (i j : nat) ei ej,
       (i <= j)%nat -> out !! i = Some ei -> out !! j = Some ej ->
       (App.score ej <=? App.score ei)%float = true).
Proof.
  destruct (retrieve_ordered ex_embed ex_search ex_built
              (App.query_of ex_inputs) 4 ex_index ex_meta)
    as (out & Hout & Hle & _ & Hsorted & _);
    [lia|reflexivity|reflexivity|reflexivity|discriminate
    |exact ex_search_faiss_result|].
  exists out. split; [exact Hout|]. split; [exact Hle|exact Hsorted].
Defined.

Lemma confidence_gate_witness :
  App.handler ex_embed ex_search_far lower_ascii None ex_unavailable ex_built
    ex_inputs
  = App.Run [App.Retrieve (App.query_of ex_inputs) 4;
             App.StError (lit "NOT FOUND");
             App.StCaptionBestScore 0.125]
            (Raise StopException).
Proof.
  destruct (confidence_gate ex_embed ex_search_far lower_ascii None
              ex_unavailable ex_built ex_inputs ex_retrieved_far)
    as (_ & _ & _ & Hrejected & _); [vm_compute; reflexivity|].
  apply Hrejected. reflexivity.
Defined.

Lemma answerer_outcomes_witness :
  App.handler ex_embed ex_search lower_ascii None ex_unavailable ex_built
    ex_inputs
  = App.Run (App.started ex_inputs ex_retrieved ++ [App.StWrite App.key_missing]
             ++ App.trace (App.links_and_evidence lower_ascii ex_built ex_retrieved))
            (App.outcome (App.links_and_evidence lower_ascii ex_built ex_retrieved)).
Proof.
  destruct (answerer_outcomes ex_embed ex_search lower_ascii None
              ex_unavailable ex_built ex_inputs ex_retrieved)
    as (Hmissing & _);
    [vm_compute; reflexivity|reflexivity|].
  apply Hmissing. reflexivity.
Defined.

(** What the run with the missing key shows. *)
Example handler_key_missing_ex :
  App.handler ex_embed ex_search lower_ascii None ex_unavailable ex_built
    ex_inputs
  = App.Run
      (App.started ex_inputs ex_retrieved
       ++ [App.StWrite App.key_missing;
           App.MatchLinks ex_retrieved;
           App.StSubheader ([128279%N] ++ lit " Official Links");
           App.StMarkdown (lit "**Aasara Pensions**");
           App.StMarkdown (lit "- Apply: Not found");
           App.StMarkdown (lit "**Kalyana Lakshmi**");
           App.StMarkdown (lit "- Apply: Not found");
           App.StMarkdown (lit "**pension**");
           App.StMarkdown (lit "- Apply: Not found");
           App.StExpander ([128270%N] ++ lit " Evidence used");
           App.StEvidenceHeading (lit "GO_43.pdf") 2 0.5;
           App.StWrite (lit "Eligibility: age 60 and above");
           App.StEvidenceHeading (lit "pension_go.pdf") 1 0.25;
           App.StWrite (lit "Pension of Rs. 4000 a month");
           App.StEvidenceHeading (lit "GO_43.pdf") 2 ex_pad;
           App.StWrite (lit "Eligibility: age 60 and above");
           App.StEvidenceHeading (lit "GO_43.pdf") 2 ex_pad;
           App.StWrite (lit "Eligibility: age 60 and above")])
      (Ok tt).
Proof. vm_compute. reflexivity. Qed.

(** The run in which the key is there and the call of the model fails. *)
Lemma handler_unavailable_ex :
  App.handler ex_embed ex_search lower_ascii (Some (lit "key")) ex_unavailable
    ex_built ex_inputs
  = App.Run
      (App.started ex_inputs ex_retrieved
       ++ [App.GenerateContent
             (App.prompt_of (App.profile_of ex_inputs)
                (App.evidence_text ex_retrieved))])
      (Raise (ExternalError (lit "503 Service Unavailable"))).
Proof. vm_compute. reflexivity. Qed.

(** C6, as stated, fails: with the key set and a call of the model that
    raises, the handler ends at the call; it writes no message, empty or
    not, and it does not call the link matcher. *)
Lemma failure_is_shown_counterexample :
  ~ App.failure_is_shown
      (App.handler ex_embed ex_search lower_ascii (Some (lit "key"))
         ex_unavailable ex_built ex_inputs).
Proof.
  rewrite handler_unavailable_ex. unfold App.failure_is_shown, App.started.
  cbn [App.trace app]. intros [_ (ev & Hin)].
  repeat (apply elem_of_cons in Hin as [Heq|Hin]; [discriminate|]).
  apply elem_of_nil in Hin. exact Hin.
Qed.

(** * Further properties of the code *)

(** ** What [clean_text] returns *)

Section CleanTextMore.
Import Build.
Implicit Types (s r : str) (c : N).

Lemma strip_head s : head_not_space (strip s).
Proof.
  unfold strip. pose proof (lstrip_head s) as Hh.
  destruct (lstrip s) as [|c r]; [exact I|]. simpl in Hh.
  rewrite rstrip_cons by exact Hh. exact Hh.
Qed.

Lemma strip_last s : head_not_space (rev (strip s)).
Proof. unfold strip, rstrip. rewrite rev_involutive. apply lstrip_head. Qed.

Lemma strip_id s :
  head_not_space s -> head_not_space (rev s) -> strip s = s.
Proof.
  intros Hh Hl. unfold strip, rstrip.
  rewrite (lstrip_id s Hh), (lstrip_id (rev s) Hl). apply rev_involutive.
Qed.

(** X1: the texts that [clean_text] leaves as they are are the texts it
    returns: the texts without a null character, in which every
    whitespace character is a single space between two characters that
    are not whitespace. *)
Theorem clean_text_fixed_points s :
  (clean_text s = s <->
   single_spaced s /\ head_not_space s /\ head_not_space (rev s)) /\
  clean_text (clean_text s) = clean_text s.
Proof.
  split; [|apply clean_text_idempotent]. split.
  - intros <-. split; [apply clean_text_single|].
    unfold clean_text. split; [apply strip_head|apply strip_last].
  - intros (Hs & Hh & Hl). unfold clean_text.
    rewrite replace_null_id, sub_spaces_id by exact Hs.
    apply strip_id; assumption.
Qed.

Lemma sub_spaces_true_blank s :
  Forall (fun c => is_space c = true) s -> sub_spaces true s = [].
Proof. induction 1 as [|c r Hc _ IH]; simpl; [reflexivity|]. rewrite Hc. exact IH. Qed.

Lemma sub_spaces_keeps b s c :
  c ∈ s -> is_space c = false -> c ∈ sub_spaces b s.
Proof.
  intros Hin Hc. revert b. induction s as [|a r IH]; intros b.
  - apply elem_of_nil in Hin. contradiction.
  - apply elem_of_cons in Hin as [<-|Hin]; simpl.
    + rewrite Hc. left.
    + destruct (is_space a); [destruct b|];
        try (apply elem_of_cons; right); auto.
Qed.

Lemma lstrip_keeps s c : c ∈ s -> is_space c = false -> c ∈ lstrip s.
Proof.
  intros Hin Hc. induction s as [|a r IH].
  - apply elem_of_nil in Hin. contradiction.
  - simpl. destruct (is_space a) eqn:Ha; [|exact Hin].
    apply elem_of_cons in Hin as [->|Hin]; [congruence|auto].
Qed.

Lemma elem_of_rev s c : c ∈ rev s <-> c ∈ s.
Proof. rewrite !list_elem_of_In. symmetry. apply in_rev. Qed.

Lemma strip_keeps s c : c ∈ s -> is_space c = false -> c ∈ strip s.
Proof.
  intros Hin Hc. unfold strip, rstrip. apply elem_of_rev, lstrip_keeps; [|exact Hc].
  apply elem_of_rev. apply lstrip_keeps; assumption.
Qed.

(** X2: [clean_text] returns the empty text exactly for the texts made of
    whitespace and null characters only, which are the pages that
    [parse_pdf] leaves out. *)
Theorem clean_text_empty s :
  clean_text s = [] <-> Forall (fun c => is_space c = true \/ c = 0%N) s.
Proof.
  unfold clean_text. split.
  - intros Hempty. apply Forall_forall. intros c Hc.
    destruct (is_space c) eqn:Hsp; [auto|]. right.
    destruct (N.eqb_spec c 0) as [|Hne]; [assumption|]. exfalso.
    assert (Hin : c ∈ strip (sub_spaces false (replace_char 0 32 s))).
    { apply strip_keeps; [|exact Hsp]. apply sub_spaces_keeps; [|exact Hsp].
      unfold replace_char. apply list_elem_of_fmap. exists c. split; [|exact Hc].
      destruct (N.eqb_spec c 0); [contradiction|reflexivity]. }
    rewrite Hempty in Hin. apply elem_of_nil in Hin. exact Hin.
  - intros Hall.
    assert (Hblank : Forall (fun c => is_space c = true) (replace_char 0 32 s)).
    { unfold replace_char. apply Forall_fmap. eapply Forall_impl; [exact Hall|].
      simpl. intros c [Hc| ->]; [|reflexivity].
      destruct (N.eqb_spec c 0); [reflexivity|exact Hc]. }
    destruct Hblank as [|c r Hc Hr]; [reflexivity|]. simpl. rewrite Hc.
    rewrite (sub_spaces_true_blank r Hr). reflexivity.
Qed.

End CleanTextMore.

(** ** Where the chunks lie *)

Section ChunksMore.
Import Build.
Implicit Types (L m o s : Z) (ws : list (Z * Z)) (text t : str).

(** With a window that moves forward by [m - o], the [k]-th window from
    [s] starts at [s + k * (m - o)]. *)
Lemma windows_starts L m o s ws :
  windows_from L m o s ws -> 0 <= o -> o < m -> 0 <= s ->
  forall (k : nat) w, ws !! k = Some w -> w.1 = s + Z.of_nat k * (m - o).
Proof.
  intros Hws Ho Hom.
  induction Hws as [s Hs|s e Hs He Hend|s e ws Hs He Hend Hws IH];
    intros Hs0 k w Hk.
  - discriminate.
  - destruct k; [|discriminate]. injection Hk as <-. cbn [fst]. lia.
  - destruct k; simpl in Hk.
    + injection Hk as <-. cbn [fst]. lia.
    + rewrite (IH ltac:(lia) k w Hk). lia.
Qed.

(** The number of windows is the least [n >= 1] for which the window that
    starts at [s + (n - 1) * (m - o)] reaches the end of the text. *)
Lemma windows_count L m o s ws :
  windows_from L m o s ws -> 0 <= o -> o < m -> 0 <= s -> s < L ->
  1 <= Z.of_nat (length ws) /\
  L <= s + (Z.of_nat (length ws) - 1) * (m - o) + m /\
  forall k, 0 <= k < Z.of_nat (length ws) - 1 -> s + k * (m - o) + m < L.
Proof.
  intros Hws Ho Hom.
  induction Hws as [s Hs|s e Hs He Hend|s e ws Hs He Hend Hws IH];
    intros Hs0 HsL.
  - lia.
  - simpl. split; [lia|]. split; [lia|]. intros k Hk. lia.
  - destruct IH as (Hn & Hreach & Hbefore); [lia|lia|].
    assert (Hstart : Z.max 0 (e - o) = s + (m - o)) by lia.
    rewrite Hstart in Hreach, Hbefore.
    cbn [length]. rewrite Nat2Z.inj_succ. split; [lia|]. split; [nia|].
    intros k Hk. destruct (Z.eq_dec k 0) as [->|Hk0]; [lia|].
    specialize (Hbefore (k - 1) ltac:(lia)). nia.
Qed.

(** X3: with [0 <= overlap < max_chars], a cleaned text of length
    [L > max_chars] is cut into [1 + ceil ((L - max_chars) / (max_chars -
    overlap))] chunks, the [k]-th (from 0) being the characters from
    [k * (max_chars - overlap)] to [max_chars] further, or to the end of
    the text. *)
Theorem chunk_text_closed_form text m o :
  0 <= o -> o < m -> m < len (clean_text text) ->
  forall fuel, (length (clean_text text) < fuel)%nat ->
    chunk_text fuel text m o
    = Ok (map (fun k => slice (clean_text text) (k * (m - o))
                          (Z.min (len (clean_text text)) (k * (m - o) + m)))
            (seqZ 0 (1 + (len (clean_text text) - m + (m - o) - 1) / (m - o)))).
Proof.
  intros Ho Hom Hm fuel Hfuel. set (t := clean_text text) in *.
  assert (Hne : t <> []).
  { intros Heq. rewrite Heq in Hm. unfold len in Hm. simpl in Hm. lia. }
  destruct (chunk_text_long text m o Hom Hm Hne) as (ws & Hws & Hrun).
  fold t in Hws, Hrun. rewrite (Hrun fuel Hfuel). f_equal.
  destruct (windows_count _ _ _ _ _ Hws Ho Hom (Z.le_refl 0)) as (Hn & Hreach & Hbefore);
    [lia|].
  assert (Hcount : 1 + (len t - m + (m - o) - 1) / (m - o)
                   = Z.of_nat (length ws)).
  { assert (Htwo : 2 <= Z.of_nat (length ws)).
    { destruct (Z_lt_le_dec (Z.of_nat (length ws)) 2); [|assumption].
      replace (Z.of_nat (length ws)) with 1 in Hreach by lia. lia. }
    specialize (Hbefore (Z.of_nat (length ws) - 2) ltac:(lia)).
    assert (Hq : Z.of_nat (length ws) - 1
                 = (len t - m + (m - o) - 1) / (m - o)).
    { apply (Z.div_unique _ _ _
               (len t - m + (m - o) - 1 - (m - o) * (Z.of_nat (length ws) - 1)));
        [left; nia|lia]. }
    lia. }
  rewrite Hcount. apply list_eq. intros i. rewrite !list_lookup_fmap.
  destruct (ws !! i) as [w|] eqn:Hw.
  - rewrite lookup_seqZ_lt by (apply lookup_lt_Some in Hw; lia). simpl.
    unfold cut.
    rewrite (windows_end _ _ _ _ _ Hws i w Hw).
    rewrite (windows_starts _ _ _ _ _ Hws Ho Hom (Z.le_refl 0) i w Hw).
    reflexivity.
  - rewrite lookup_seqZ_ge by (apply lookup_ge_None in Hw; lia). reflexivity.
Qed.

Lemma chunk_text_closed_form_witness :
  Build.chunk_text 11 (lit "abcdefghij") 4 1
  = Ok [lit "abcd"; lit "defg"; lit "ghij"].
Proof.
  rewrite (chunk_text_closed_form (lit "abcdefghij") 4 1);
    [vm_compute; reflexivity|lia|lia|vm_compute; reflexivity
    |vm_compute; lia].
Defined.

(** X4: with [0 <= overlap < max_chars], every chunk of a long text but
    the last has [max_chars] characters, and its last [overlap]
    characters are the first [overlap] characters of the chunk after it,
    which is longer than [overlap]. *)
Theorem chunk_text_overlap text m o :
  0 <= o -> o < m -> m < len (clean_text text) ->
  exists out,
    (forall fuel, (length (clean_text text) < fuel)%nat ->
       chunk_text fuel text m o = Ok out) /\
    forall (n : nat) c c',
      out !! n = Some c -> out !! S n = Some c' ->
      len c = m /\ o < len c' /\
      drop (Z.to_nat (m - o)) c = take (Z.to_nat o) c'.
Proof.
  intros Ho Hom Hm. set (t := clean_text text) in *.
  assert (Hne : t <> []).
  { intros Heq. rewrite Heq in Hm. unfold len in Hm. simpl in Hm. lia. }
  destruct (chunk_text_long text m o Hom Hm Hne) as (ws & Hws & Hrun).
  fold t in Hws, Hrun. exists (map (cut t) ws). split; [exact Hrun|].
  intros n c c'. rewrite !list_lookup_fmap.
  destruct (ws !! n) as [w|] eqn:Hw; [|discriminate].
  destruct (ws !! S n) as [w'|] eqn:Hw'; [|discriminate].
  simpl. intros [= <-] [= <-].
  pose proof (windows_before_last _ _ _ _ _ Hws n w Hw
                ltac:(apply lookup_lt_Some in Hw'; lia)) as Hlt.
  pose proof (windows_end _ _ _ _ _ Hws n w Hw) as He.
  pose proof (windows_end _ _ _ _ _ Hws (S n) w' Hw') as He'.
  pose proof (windows_step _ _ _ _ _ Hws n w w' Hw Hw') as Hstep.
  destruct (windows_inside _ _ _ _ _ Hws Ho Hom (Z.le_refl 0) w) as (H1 & H2 & H3 & H4).
  { apply list_elem_of_lookup. eauto. }
  destruct (windows_inside _ _ _ _ _ Hws Ho Hom (Z.le_refl 0) w') as (H1' & H2' & H3' & H4').
  { apply list_elem_of_lookup. eauto. }
  unfold cut. rewrite !len_slice by lia. split; [lia|]. split; [lia|].
  rewrite !slice_inside by lia.
  rewrite take_take, Nat.min_l by lia.
  rewrite !(take_drop_commute t), drop_drop. f_equal; [lia|]. f_equal. lia.
Qed.

Lemma chunk_text_overlap_witness :
  exists out,
    (forall fuel, (length (clean_text (lit "abcdefghij")) < fuel)%nat ->
       chunk_text fuel (lit "abcdefghij") 4 1 = Ok out) /\
    forall (n : nat) c c',
      out !! n = Some c -> out !! S n = Some c' ->
      len c = 4 /\ 1 < len c' /\
      drop (Z.to_nat (4 - 1)) c = take (Z.to_nat 1) c'.
Proof.
  apply (chunk_text_overlap (lit "abcdefghij") 4 1); [lia|lia|].
  vm_compute. reflexivity.
Defined.

End ChunksMore.

(** ** Documents, pages and rows *)

Section BuildMore.
Import Build.
Variable encode1 : str -> vec.
Variable emb_dim : Z.

Lemma last_dot_app (a b : str) (i : nat) (found : option nat) :
  last_dot (a ++ b) i found = last_dot b (i + length a) (last_dot a i found).
Proof.
  revert i found. induction a as [|c a IH]; intros i found; simpl.
  - rewrite Nat.add_0_r. reflexivity.
  - rewrite IH. f_equal. lia.
Qed.

Lemma last_dot_pdf (i : nat) (found : option nat) :
  last_dot (lit ".pdf") i found = Some i.
Proof. reflexivity. Qed.

(** X5: the document id of a file [<base>.pdf] is [<base>]. *)
Theorem stem_pdf (base : str) :
  base <> [] -> stem (base ++ lit ".pdf") = base.
Proof.
  intros Hne. unfold stem. rewrite last_dot_app, last_dot_pdf.
  destruct base as [|c base]; [contradiction|].
  cbn [length Nat.add]. rewrite length_app.
  change (length (lit ".pdf")) with 4%nat.
  replace (S (S (length base)) =? length (c :: base) + 4)%nat with false
    by (symmetry; apply Nat.eqb_neq; simpl; lia).
  apply (take_app_length (c :: base)).
Qed.

Lemma stem_pdf_witness : stem (lit "pension_go.pdf") = lit "pension_go".
Proof. apply (stem_pdf (lit "pension_go")). discriminate. Defined.

Lemma enumerate_elem {A} (k k' : Z) (x : A) (l : list A) :
  (k', x) ∈ enumerate k l -> k <= k' /\ x ∈ l.
Proof.
  revert k. induction l as [|y l IH]; intros k Hin; simpl in Hin.
  - apply elem_of_nil in Hin. contradiction.
  - apply elem_of_cons in Hin as [[= -> ->]|Hin].
    + split; [lia|left].
    + apply IH in Hin as [Hk Hx]. split; [lia|right; exact Hx].
Qed.

Lemma parse_pdf_sorted (k : Z) (raw : list (option str)) :
  StronglySorted Z.lt
    (map fst (filter (fun it : Z * str => negb (bool_decide (it.2 = [])))
                (map (fun it : Z * option str =>
                        (it.1, clean_text (default [] it.2)))
                   (enumerate k raw)))).
Proof.
  revert k. induction raw as [|o raw IH]; intros k; simpl; [constructor|].
  rewrite filter_cons. destruct (decide _) as [Hkeep|Hdrop]; [|apply IH].
  simpl. constructor; [apply IH|].
  apply Forall_forall. intros i Hi.
  apply list_elem_of_fmap in Hi as ([i' t] & -> & Hin).
  apply list_elem_of_filter in Hin as [_ Hin].
  apply list_elem_of_fmap in Hin as ([i'' o'] & [= -> ->] & Hin).
  apply enumerate_elem in Hin as [Hk _]. simpl. lia.
Qed.

Lemma parse_pdf_page_no pdf pages i t :
  parse_pdf pdf = Ok pages -> (i, t) ∈ pages -> 1 <= i.
Proof.
  unfold parse_pdf. destruct (pdf_pages pdf) as [raw|e]; simpl; [|discriminate].
  intros [= <-] Hin. apply list_elem_of_filter in Hin as [_ Hin].
  apply list_elem_of_fmap in Hin as ([i' o] & [= -> ->] & Hin).
  apply enumerate_elem in Hin as [Hi _]. exact Hi.
Qed.

(** X6: [parse_pdf] raises what the reader raises; otherwise it returns,
    in the order of the document, the pages whose cleaned text is not
    empty, each with that text and with its number in the document,
    counted from 1 over all the pages, those left out included. *)
Theorem parse_pdf_numbered pdf :
  match pdf_pages pdf with
  | Raises e => parse_pdf pdf = Raise e
  | Returns raw =>
      exists pages,
        parse_pdf pdf = Ok pages /\
        (forall i t,
           (i, t) ∈ pages <->
           1 <= i /\ t <> [] /\
           exists o, raw !! Z.to_nat (i - 1) = Some o /\
                     t = clean_text (default [] o)) /\
        StronglySorted Z.lt (map fst pages)
  end.
Proof.
  unfold parse_pdf. destruct (pdf_pages pdf) as [raw|e]; simpl; [|reflexivity].
  eexists. split; [reflexivity|]. split; [|apply parse_pdf_sorted].
  intros i t. rewrite list_elem_of_filter, list_elem_of_fmap. simpl. split.
  - intros [Hne ([i' o] & [= -> ->] & Hin)].
    apply list_elem_of_lookup in Hin as [n Hn].
    rewrite enumerate_lookup in Hn.
    destruct (raw !! n) as [o'|] eqn:Ho; [|discriminate].
    simpl in Hn. injection Hn as Hi Ho'. subst i' o'. split; [lia|]. split.
    + intros Heq. rewrite Heq in Hne. exact Hne.
    + exists o. split; [|reflexivity].
      replace (Z.to_nat (1 + Z.of_nat n - 1)) with n by lia. exact Ho.
  - intros (Hi & Hne & o & Ho & ->). split.
    + rewrite bool_decide_eq_false_2 by exact Hne. exact I.
    + exists (i, o). split; [reflexivity|].
      apply list_elem_of_lookup. exists (Z.to_nat (i - 1)).
      rewrite enumerate_lookup, Ho. simpl. do 2 f_equal. lia.
Qed.

Lemma for_each_elem {A B} (body : A -> result (list B)) (l : list A) ys y :
  for_each body l = Ok ys -> y ∈ ys ->
  exists x zs, x ∈ l /\ body x = Ok zs /\ y ∈ zs.
Proof.
  revert ys. induction l as [|x l IH]; intros ys; simpl.
  - intros [= <-] Hy. apply elem_of_nil in Hy. contradiction.
  - destruct (body x) as [zs| |] eqn:Hx; simpl; try discriminate.
    destruct (for_each body l) as [ys'| |]; simpl; try discriminate.
    intros [= <-] Hy. apply elem_of_app in Hy as [Hy|Hy].
    + exists x, zs. split; [left|]. auto.
    + destruct (IH ys' eq_refl Hy) as (x' & zs' & Hx' & Hb & Hy').
      exists x', zs'. split; [right; exact Hx'|]. auto.
Qed.

(** A chunk of the default window is not empty and has at most 1400
    characters. *)
Lemma chunk_text_default_chunks text out c :
  chunk_text_default text = Ok out -> c ∈ out ->
  c <> [] /\ len c <= default_max_chars.
Proof.
  unfold chunk_text_default, chunk_text.
  destruct (decide (clean_text text = [])) as [Heq|Hne].
  { rewrite bool_decide_eq_true_2 by exact Heq. intros [= <-] Hc.
    apply elem_of_nil in Hc. contradiction. }
  rewrite bool_decide_eq_false_2 by exact Hne.
  destruct (Z.leb_spec (len (clean_text text)) default_max_chars) as [Hle|Hgt].
  - intros [= <-] Hc. apply list_elem_of_singleton in Hc. subst c. auto.
  - intros Hrun Hc. apply chunk_loop_windows in Hrun as (ws & Hws & ->).
    simpl in Hc. apply list_elem_of_fmap in Hc as (w & -> & Hw).
    destruct (windows_inside _ _ _ _ _ Hws) with (w := w) as (H1 & H2 & H3 & H4);
      [unfold default_overlap; lia|reflexivity|lia|exact Hw|].
    unfold cut. split.
    + intros Heq.
      pose proof (len_slice (clean_text text) w.1 w.2
                    ltac:(lia) ltac:(lia) ltac:(lia)) as Hlen.
      rewrite Heq in Hlen. unfold len at 1 in Hlen. simpl in Hlen. lia.
    + rewrite len_slice by lia. lia.
Qed.

(** X7: every row that the build writes comes from one of the documents:
    it carries the name of the file and its stem as the document id, a
    page number and a chunk number that are at least 1, and a text that
    is not empty and has at most 1400 characters; and the rows written
    to [chunks.jsonl] are the rows of the metadata table. *)
Theorem main_rows pdfs art :
  main encode1 emb_dim pdfs = Ok art ->
  chunks_jsonl art = meta_parquet art /\
  forall r, r ∈ meta_parquet art ->
    exists pdf,
      pdf ∈ pdfs /\ file_name r = pdf_name pdf /\
      doc_id r = stem (pdf_name pdf) /\
      1 <= page_no r /\ 1 <= chunk_no r /\
      text r <> [] /\ len (text r) <= 1400.
Proof.
  unfold main. destruct (bool_decide (pdfs = [])); [discriminate|].
  destruct (for_each pdf_rows pdfs) as [rows| |] eqn:Hrows; simpl; try discriminate.
  destruct (bool_decide _); [discriminate|]. intros [= <-]. simpl.
  split; [reflexivity|]. intros r Hr.
  destruct (for_each_elem _ _ _ _ Hrows Hr) as (pdf & prs & Hpdf & Hprs & Hr').
  exists pdf. split; [exact Hpdf|].
  unfold pdf_rows in Hprs.
  destruct (parse_pdf pdf) as [pages| |] eqn:Hparse; simpl in Hprs; try discriminate.
  destruct (for_each_elem _ _ _ _ Hprs Hr') as ([i t] & rs & Hpage & Hrs & Hr'').
  unfold page_rows in Hrs. simpl in Hrs.
  destruct (chunk_text_default t) as [cks| |] eqn:Hcks; simpl in Hrs; try discriminate.
  injection Hrs as <-.
  apply list_elem_of_fmap in Hr'' as ([k c] & -> & Hkc). simpl.
  apply enumerate_elem in Hkc as [Hk Hc].
  destruct (chunk_text_default_chunks _ _ _ Hcks Hc) as [Hne Hlen].
  pose proof (parse_pdf_page_no _ _ _ _ Hparse Hpage) as Hi.
  auto 10.
Qed.

Lemma for_each_returns {A B} (body : A -> result (list B)) (l : list A) :
  (forall x, x ∈ l -> exists ys, body x = Ok ys) ->
  exists ys, for_each body l = Ok ys.
Proof.
  induction l as [|x l IH]; intros Hbody; simpl; [eauto|].
  destruct (Hbody x) as [ys ->]; [left|].
  destruct IH as [zs ->]; [intros x' Hx'; apply Hbody; right; exact Hx'|].
  simpl. eauto.
Qed.

Lemma for_each_raises {A B} (body : A -> result (list B)) before x after e :
  (forall y, y ∈ before -> exists ys, body y = Ok ys) ->
  body x = Raise e ->
  for_each body (before ++ x :: after) = Raise e.
Proof.
  intros Hbefore Hx. induction before as [|y before IH]; simpl.
  - rewrite Hx. reflexivity.
  - destruct (Hbefore y) as [ys ->]; [left|].
    rewrite IH by (intros y' Hy'; apply Hbefore; right; exact Hy').
    reflexivity.
Qed.

Lemma pdf_rows_readable pdf raw :
  pdf_pages pdf = Returns raw -> exists rows, pdf_rows pdf = Ok rows.
Proof.
  intros Hraw. unfold pdf_rows, parse_pdf. rewrite Hraw. simpl.
  apply for_each_returns. intros page _. unfold page_rows.
  destruct (chunk_text_default_returns page.2) as [out ->]. simpl. eauto.
Qed.

Lemma for_each_nothing {A B} (body : A -> result (list B)) (l : list A) :
  (forall x, x ∈ l -> body x = Ok []) -> for_each body l = Ok [].
Proof.
  induction l as [|x l IH]; intros Hbody; simpl; [reflexivity|].
  rewrite (Hbody x) by left.
  rewrite IH by (intros x' Hx'; apply Hbody; right; exact Hx'). reflexivity.
Qed.

Lemma filter_none {A} (P : A -> Prop) `{!forall x, Decision (P x)} (l : list A) :
  Forall (fun x => ~ P x) l -> filter P l = [].
Proof.
  induction 1 as [|x l Hx _ IH]; [reflexivity|].
  rewrite filter_cons_False by exact Hx. exact IH.
Qed.

(** X8: the build stops with [SystemExit] when there is no document; it
    stops with the exception of the first document that the reader
    cannot read, whatever the documents before it held, and writes
    nothing; and it stops with [IndexError] when no page of any document
    has text. *)
Theorem main_stops pdfs :
  (pdfs = [] -> exists msg, main encode1 emb_dim pdfs = Raise (SystemExit msg)) /\
  (forall before bad after e,
     pdfs = before ++ bad :: after ->
     (forall p, p ∈ before -> exists raw, pdf_pages p = Returns raw) ->
     pdf_pages bad = Raises e ->
     main encode1 emb_dim pdfs = Raise e) /\
  (pdfs <> [] ->
   (forall p, p ∈ pdfs ->
      exists raw, pdf_pages p = Returns raw /\
                  Forall (fun o => clean_text (default [] o) = []) raw) ->
   main encode1 emb_dim pdfs = Raise IndexError).
Proof.
  unfold main. split; [|split].
  - intros ->. eexists. reflexivity.
  - intros before bad after e -> Hbefore Hbad.
    rewrite bool_decide_eq_false_2 by (destruct before; discriminate).
    rewrite (for_each_raises pdf_rows before bad after e); [reflexivity| |].
    + intros p Hp. destruct (Hbefore p Hp) as [raw Hraw].
      apply (pdf_rows_readable p raw Hraw).
    + unfold pdf_rows, parse_pdf. rewrite Hbad. reflexivity.
  - intros Hne Hblank. rewrite bool_decide_eq_false_2 by exact Hne.
    rewrite (for_each_nothing pdf_rows pdfs); [reflexivity|].
    intros p Hp. destruct (Hblank p Hp) as (raw & Hraw & Hall).
    unfold pdf_rows, parse_pdf. rewrite Hraw. simpl.
    rewrite filter_none; [reflexivity|]. apply Forall_forall.
    intros [i t] Hin. apply list_elem_of_fmap in Hin as ([i' o] & [= -> ->] & Hin).
    apply enumerate_elem in Hin as [_ Ho]. simpl.
    rewrite Forall_forall in Hall. rewrite (Hall o Ho). simpl. exact id.
Qed.

End BuildMore.

(** ** The handler without an index, and without links *)

Section HandlerMore.
Import App.
Variable embed_query : str -> Build.vec.
Variable search : Build.index -> Build.vec -> Z -> list float * list Z.
Variable lower : str -> str.
Variable api_key : option str.
Variable generate_content : str -> external (option str).
Variable d : disk.

Local Abbreviation handler :=
  (handler embed_query search lower api_key generate_content d).
Local Abbreviation llm_answer := (llm_answer api_key generate_content).
Local Abbreviation links_and_evidence := (links_and_evidence lower d).
Local Abbreviation retrieve := (retrieve embed_query search d).

(** X9: without the index file or without the metadata file, the handler
    ends at the retrieval with the error that tells to run the build: it
    shows nothing and calls neither the answerer nor the link matcher. *)
Theorem handler_index_not_built inp :
  faiss_index_file d = None \/ meta_parquet_file d = None ->
  handler inp
  = Run [Retrieve (query_of inp) (in_top_k inp)]
        (Raise (RuntimeError index_not_found)).
Proof.
  intros Hmissing. unfold App.handler, App.retrieve, load_index_and_meta.
  destruct Hmissing as [-> | ->]; [reflexivity|].
  destruct (faiss_index_file d); reflexivity.
Qed.

Lemma show_evidence_ok (ev : list evidence) :
  outcome (ui_for show_evidence ev) = Ok tt.
Proof. induction ev as [|e ev IH]; simpl; [reflexivity|]. exact IH. Qed.

(** X10: without the links file the handler, after the answer, says that
    no official links are mapped and goes on to show the evidence; with a
    links file that cannot be read as JSON it ends at the call of the
    matcher with the exception of the reader, before the evidence is
    shown. *)
Theorem links_file_missing_or_unreadable (ev : list evidence) :
  (links_json_file d = None ->
   links_and_evidence ev
   = Run ([MatchLinks ev;
           StInfo (lit "No official links mapped for this scheme.");
           StExpander ([128270%N] ++ lit " Evidence used")]
          ++ trace (ui_for show_evidence ev))
         (Ok tt)) /\
  (forall e, links_json_file d = Some (Raises e) ->
   links_and_evidence ev = Run [MatchLinks ev] (Raise e)).
Proof.
  unfold App.links_and_evidence, match_links_from_evidence, load_scheme_links.
  split.
  - intros ->. simpl. unfold mbind, ui_bind, call, emit. cbn [outcome trace].
    rewrite show_evidence_ok. reflexivity.
  - intros e ->. reflexivity.
Qed.

End HandlerMore.

(** ** More on the link matcher *)

Section LinkMatcherMore.
Import App.
Variable lower : str -> str.
Implicit Types (ev : list evidence) (s : scheme) (db : list scheme).

Lemma entry_matches_orb ev s :
  entry_matches lower ev s
  = rule_doc_id lower ev s || rule_file_name lower ev s
    || rule_scheme_name lower ev s.
Proof.
  unfold entry_matches.
  destruct (rule_doc_id lower ev s), (rule_file_name lower ev s); reflexivity.
Qed.

Lemma existsb_impl {A} (P Q : A -> bool) (l : list A) :
  (forall x, P x = true -> Q x = true) ->
  existsb P l = true -> existsb Q l = true.
Proof.
  intros HPQ. rewrite !existsb_exists. intros (x & Hx & HP). eauto.
Qed.

Lemma existsb_more {A} (P : A -> bool) (l l1 l2 : list A) :
  existsb P l = true -> existsb P (l1 ++ l ++ l2) = true.
Proof.
  intros H. rewrite !existsb_app, H. apply orb_true_iff. right. reflexivity.
Qed.

Lemma entry_matches_more ev ev1 ev2 s :
  entry_matches lower ev s = true ->
  entry_matches lower (ev1 ++ ev ++ ev2) s = true.
Proof.
  rewrite !entry_matches_orb, !orb_true_iff.
  unfold rule_doc_id, rule_file_name, rule_scheme_name.
  intros [[H|H]|H].
  - left. left. revert H. apply existsb_impl. intros x. apply existsb_more.
  - left. right. revert H. apply existsb_impl. intros x. apply existsb_more.
  - right. apply andb_true_iff in H as [Hn H]. rewrite Hn. simpl.
    apply existsb_more. exact H.
Qed.

Lemma filter_sublist_impl {A} (P Q : A -> Prop)
    `{!forall x, Decision (P x)} `{!forall x, Decision (Q x)} (l : list A) :
  (forall x, P x -> Q x) -> filter P l `sublist_of` filter Q l.
Proof.
  intros HPQ. induction l as [|x l IH]; [constructor|].
  rewrite !filter_cons. destruct (decide (P x)) as [HP|HP].
  - rewrite decide_True by auto. constructor. exact IH.
  - destruct (decide (Q x)); [constructor|]; exact IH.
Qed.

(** X11: more evidence never takes a link away: the links matched for
    some evidence are, in order, among the links matched for any longer
    evidence that holds it; and no evidence gives no link. *)
Theorem match_links_grows d ev ev1 ev2 db :
  load_scheme_links d = Ok db ->
  exists out out',
    match_links_from_evidence lower d ev = Ok out /\
    match_links_from_evidence lower d (ev1 ++ ev ++ ev2) = Ok out' /\
    out `sublist_of` out' /\
    match_links_from_evidence lower d [] = Ok [].
Proof.
  intros Hdb. rewrite !(match_links_filter lower d _ db Hdb).
  eexists. eexists. split; [reflexivity|]. split; [reflexivity|]. split.
  - apply filter_sublist_impl. intros s Hs. apply Is_true_true.
    apply entry_matches_more. apply Is_true_true. exact Hs.
  - f_equal. apply filter_none. apply Forall_forall. intros s _.
    rewrite entry_matches_orb.
    unfold rule_doc_id, rule_file_name, rule_scheme_name. simpl.
    rewrite andb_false_r, orb_false_r.
    assert (Hno : forall l : list str, existsb (fun _ => false) l = false)
      by (induction l; auto).
    rewrite !Hno. exact id.
Qed.

Lemma is_prefix_spec (p s : str) :
  is_prefix p s = true <-> exists post, s = p ++ post.
Proof.
  revert s. induction p as [|a p IH]; intros s; simpl.
  - split; [eauto|reflexivity].
  - destruct s as [|b s].
    + split; [discriminate|]. intros [post [=]].
    + rewrite andb_true_iff, N.eqb_eq, IH. split.
      * intros [-> [post ->]]. eauto.
      * intros [post [= -> ->]]. eauto.
Qed.

Lemma contains_spec (needle hay : str) :
  contains needle hay = true <-> exists pre post, hay = pre ++ needle ++ post.
Proof.
  induction hay as [|c hay IH]; simpl.
  - rewrite orb_false_r, is_prefix_spec. split.
    + intros [post ->]. exists [], post. reflexivity.
    + intros (pre & post & H). destruct pre; [eauto|discriminate].
  - rewrite orb_true_iff, is_prefix_spec, IH. split.
    + intros [[post ->]|(pre & post & ->)].
      * exists [], post. reflexivity.
      * exists (c :: pre), post. reflexivity.
    + intros (pre & post & H). destruct pre as [|c' pre].
      * left. eauto.
      * right. injection H as -> ->. eauto.
Qed.

(** X12: the third rule of the matcher includes an entry exactly when
    its lowered name is not empty and some piece of evidence has a
    lowered file name in which that name occurs, characters in a row. *)
Theorem rule_scheme_name_spec ev s :
  rule_scheme_name lower ev s = true <->
  lower (default [] (scheme_name s)) <> [] /\
  exists e pre post,
    e ∈ ev /\
    lower (file_name e) = pre ++ lower (default [] (scheme_name s)) ++ post.
Proof.
  unfold rule_scheme_name. rewrite andb_true_iff, negb_true_iff.
  rewrite bool_decide_eq_false, existsb_exists. split.
  - intros [Hne (e & He & Hc)]. split; [exact Hne|].
    apply contains_spec in Hc as (pre & post & Heq).
    exists e, pre, post. split; [apply list_elem_of_In, He|exact Heq].
  - intros [Hne (e & pre & post & He & Heq)]. split; [exact Hne|].
    exists e. split; [apply list_elem_of_In, He|].
    apply contains_spec. eauto.
Qed.

End LinkMatcherMore.

Lemma main_rows_witness :
  exists pdf,
    pdf ∈ ex_pdfs /\
    lit "pension_go.pdf" = Build.pdf_name pdf /\
    lit "pension_go" = Build.stem (Build.pdf_name pdf).
Proof.
  destruct (main_rows ex_encode1 2 ex_pdfs ex_art) as [_ Hrows];
    [vm_compute; reflexivity|].
  destruct (Hrows (ex_row "pension_go" "pension_go.pdf" 2 1 "Pension of Rs. 4000"))
    as (pdf & Hpdf & Hname & Hid & _); [left|].
  exists pdf. split; [exact Hpdf|]. split; [exact Hname|exact Hid].
Defined.

(** ** Labels without a vector, and labels without a row *)

Section RetrieveMore.
Import App.
Variable embed_query : str -> Build.vec.
Variable search : Build.index -> Build.vec -> Z -> list float * list Z.

Lemma for_each_singletons {A B} (body : A -> result (list B))
    (R : A -> B -> Prop) (l : list A) ys :
  (forall x zs, body x = Ok zs -> exists y, zs = [y] /\ R x y) ->
  for_each body l = Ok ys -> Forall2 R l ys.
Proof.
  intros Hbody. revert ys. induction l as [|x l IH]; intros ys; simpl.
  - intros [= <-]. constructor.
  - destruct (body x) as [zs| |] eqn:Hx; simpl; try discriminate.
    destruct (for_each body l) as [ys'| |]; simpl; try discriminate.
    intros [= <-]. destruct (Hbody x zs Hx) as (y & -> & Hy).
    constructor; [exact Hy|]. apply IH. reflexivity.
Qed.

Lemma for_each_index_error {A B} (body : A -> result (list B)) (l : list A) :
  (forall x, x ∈ l -> (exists ys, body x = Ok ys) \/ body x = Raise IndexError) ->
  (exists x, x ∈ l /\ body x = Raise IndexError) ->
  for_each body l = Raise IndexError.
Proof.
  induction l as [|x l IH]; intros Hall (x' & Hx' & Hraise).
  - apply elem_of_nil in Hx'. contradiction.
  - simpl. destruct (Hall x) as [[ys Hx]|Hx]; [left| |rewrite Hx; reflexivity].
    rewrite Hx. simpl. rewrite IH; [reflexivity| |].
    + intros y Hy. apply Hall. right. exact Hy.
    + apply elem_of_cons in Hx' as [->|Hx']; [congruence|eauto].
Qed.

(** X13: where the search gives the label [-1], which faiss gives when
    the index has fewer vectors than [top_k], the evidence that
    [retrieve] returns holds at that position the last row of the
    metadata table. *)
Theorem retrieve_padding d query top_k index meta out (i : nat) e :
  faiss_index_file d = Some (Returns index) ->
  meta_parquet_file d = Some (Returns meta) ->
  retrieve embed_query search d query top_k = Ok out ->
  (search index (embed_query query) top_k).2 !! i = Some (-1) ->
  out !! i = Some e ->
  exists r,
    last meta = Some r /\
    doc_id e = Build.doc_id r /\ file_name e = Build.file_name r /\
    page_no e = Build.page_no r /\ text e = Build.text r.
Proof.
  intros Hindex Hmeta Hret Hlabel He.
  unfold retrieve, load_index_and_meta in Hret.
  rewrite Hindex, Hmeta in Hret. simpl in Hret.
  apply (for_each_singletons _
           (fun it e => exists r, iloc meta it.2 = Ok r /\
              doc_id e = Build.doc_id r /\ file_name e = Build.file_name r /\
              page_no e = Build.page_no r /\ text e = Build.text r)) in Hret.
  - destruct (Forall2_lookup_r _ _ _ _ _ Hret He) as ([n id] & Hn & r & Hr & Hfields).
    rewrite enumerate_lookup, Hlabel in Hn. simpl in Hn. injection Hn as <- <-.
    exists r. split; [|exact Hfields]. simpl in Hr. unfold iloc in Hr.
    change (-1 <? 0) with true in Hr. cbv iota in Hr.
    destruct ((0 <=? -1 + len meta) && (-1 + len meta <? len meta)) eqn:Hin;
      [|discriminate].
    apply andb_true_iff in Hin as [Hlo _]. apply Z.leb_le in Hlo.
    rewrite last_lookup.
    replace (Nat.pred (length meta)) with (Z.to_nat (-1 + len meta))
      by (unfold len in *; lia).
    destruct (meta !! Z.to_nat (-1 + len meta)); [congruence|discriminate].
  - intros [n id] zs. simpl.
    destruct (iloc meta id) as [r| |]; simpl; try discriminate.
    destruct (at_ _ n) as [sc| |]; simpl; try discriminate.
    intros [= <-]. eexists. split; [reflexivity|]. exists r. simpl. auto.
Qed.

(** X14: when the search gives a label for which the metadata table has
    no row, at or beyond its length or below minus its length, [retrieve]
    raises [IndexError] and returns no evidence. *)
Theorem retrieve_stale_label d query top_k index meta id :
  faiss_index_file d = Some (Returns index) ->
  meta_parquet_file d = Some (Returns meta) ->
  id ∈ (search index (embed_query query) top_k).2 ->
  id < - len meta \/ len meta <= id ->
  retrieve embed_query search d query top_k = Raise IndexError.
Proof.
  intros Hindex Hmeta Hid Hout.
  unfold retrieve, load_index_and_meta. rewrite Hindex, Hmeta. simpl.
  apply for_each_index_error.
  - intros [n id'] _. simpl. unfold iloc, at_.
    destruct (_ && _); [|right; reflexivity].
    destruct (meta !! _); [|right; reflexivity]. simpl.
    destruct (_ !! Z.to_nat n); [left; eauto|right; reflexivity].
  - apply list_elem_of_lookup in Hid as [n Hn].
    exists (0 + Z.of_nat n, id). split.
    + apply list_elem_of_lookup. exists n. rewrite enumerate_lookup, Hn. reflexivity.
    + simpl. unfold iloc.
      destruct (Z.ltb_spec id 0);
        destruct (Z.leb_spec 0 (id + len meta));
        destruct (Z.leb_spec 0 id);
        destruct (Z.ltb_spec (id + len meta) (len meta));
        destruct (Z.ltb_spec id (len meta)); simpl; try reflexivity;
        unfold len in *; lia.
Qed.

End RetrieveMore.

Lemma retrieve_padding_witness :
  exists r,
    last ex_meta = Some r /\
    App.doc_id (ex_item ex_pad (ex_row "go_43" "GO_43.pdf" 2 1
                                  "Eligibility: age 60 and above"))
    = Build.doc_id r.
Proof.
  destruct (retrieve_padding ex_embed ex_search ex_built
              (App.query_of ex_inputs) 4 ex_index ex_meta ex_retrieved 2%nat
              (ex_item ex_pad (ex_row "go_43" "GO_43.pdf" 2 1
                                 "Eligibility: age 60 and above")))
    as (r & Hlast & Hid & _);
    [reflexivity|reflexivity|vm_compute; reflexivity|reflexivity|reflexivity|].
  exists r. split; assumption.
Defined.

Lemma retrieve_stale_label_witness :
  App.retrieve ex_embed ex_search_stale ex_built (App.query_of ex_inputs) 4
  = Raise IndexError.
Proof.
  apply (retrieve_stale_label ex_embed ex_search_stale ex_built
           (App.query_of ex_inputs) 4 ex_index ex_meta 5);
    [reflexivity|reflexivity| |right; vm_compute; discriminate].
  unfold ex_search_stale. cbn [snd]. rewrite !elem_of_cons. auto.
Defined.

(** ** What the prompt holds *)

Section PromptMore.
Import App.
Variable api_key : option str.
Variable generate_content : str -> external (option str).

Lemma join_elem (sep x : str) (l : list str) :
  x ∈ l -> exists pre post, join sep l = pre ++ x ++ post.
Proof.
  induction l as [|y l IH]; intros Hx.
  - apply elem_of_nil in Hx. contradiction.
  - apply elem_of_cons in Hx as [->|Hx].
    + destruct l as [|z l]; simpl.
      * exists [], []. rewrite app_nil_r. reflexivity.
      * exists [], (sep ++ join sep (z :: l)). reflexivity.
    + destruct (IH Hx) as (pre & post & Heq).
      destruct l as [|z l]; [apply elem_of_nil in Hx; contradiction|].
      exists (y ++ sep ++ pre), post.
      change (join sep (y :: z :: l)) with (y ++ sep ++ join sep (z :: l)).
      rewrite Heq, <- !app_assoc. reflexivity.
Qed.

(** The prompt around the evidence. *)
Lemma prompt_of_evidence p :
  exists pre post, forall ev_text, prompt_of p ev_text = pre ++ ev_text ++ post.
Proof.
  exists (nl ++ lit "You are an India government scheme advisor for Andhra Pradesh and Telangana." ++ nl
          ++ nl
          ++ lit "CRITICAL RULES:" ++ nl
          ++ lit "- Use ONLY the evidence below for factual claims." ++ nl
          ++ lit "- Do NOT invent amounts, thresholds, eligibility rules." ++ nl
          ++ lit "- If evidence does not support the query, output ONLY: NOT FOUND" ++ nl
          ++ lit "- DO NOT generate any links unless explicitly present in evidence." ++ nl
          ++ nl
          ++ lit "User profile:" ++ nl
          ++ profile_repr p ++ nl
          ++ nl
          ++ lit "Evidence:" ++ nl).
  eexists. intros ev_text. unfold prompt_of. rewrite <- !app_assoc. reflexivity.
Qed.

(** The prompt around the profile. *)
Lemma prompt_of_profile p ev_text :
  exists pre post, prompt_of p ev_text = pre ++ profile_repr p ++ post.
Proof.
  exists (nl ++ lit "You are an India government scheme advisor for Andhra Pradesh and Telangana." ++ nl
          ++ nl
          ++ lit "CRITICAL RULES:" ++ nl
          ++ lit "- Use ONLY the evidence below for factual claims." ++ nl
          ++ lit "- Do NOT invent amounts, thresholds, eligibility rules." ++ nl
          ++ lit "- If evidence does not support the query, output ONLY: NOT FOUND" ++ nl
          ++ lit "- DO NOT generate any links unless explicitly present in evidence." ++ nl
          ++ nl
          ++ lit "User profile:" ++ nl).
  eexists. unfold prompt_of. rewrite <- !app_assoc. reflexivity.
Qed.

(** X15: with a key, [llm_answer] makes one call of the model, and the
    prompt of that call holds the profile as Python prints it and, for
    every piece of evidence, its file name and page in brackets followed
    on the next line by its whole text. *)
Theorem prompt_grounding p ev :
  default [] api_key <> [] ->
  exists prompt,
    trace (llm_answer api_key generate_content p ev) = [GenerateContent prompt] /\
    (exists pre post, prompt = pre ++ profile_repr p ++ post) /\
    forall e, e ∈ ev ->
      exists pre post,
        prompt = pre ++ (lit "[" ++ file_name e ++ lit " | page "
                         ++ of_int (page_no e) ++ lit "]" ++ nl ++ text e)
                 ++ post.
Proof.
  intros Hkey. exists (prompt_of p (evidence_text ev)). split; [|split].
  - unfold llm_answer. rewrite bool_decide_eq_false_2 by exact Hkey.
    unfold mbind, ui_bind, call. cbn [outcome trace].
    destruct (generate_content _); reflexivity.
  - apply prompt_of_profile.
  - intros e He. destruct (prompt_of_evidence p) as (a & b & Hsplit).
    rewrite Hsplit. unfold evidence_text.
    destruct (join_elem (nl ++ nl)
                (lit "[" ++ file_name e ++ lit " | page "
                 ++ of_int (page_no e) ++ lit "]" ++ nl ++ text e)
                (map (fun e => lit "[" ++ file_name e ++ lit " | page "
                               ++ of_int (page_no e) ++ lit "]" ++ nl ++ text e)
                   ev)) as (pre & post & Heq).
    { apply list_elem_of_fmap. exists e. split; [reflexivity|exact He]. }
    rewrite Heq. exists (a ++ pre), (post ++ b).
    rewrite <- !app_assoc. reflexivity.
Qed.

End PromptMore.

(** ** Downloading the source documents *)

Section SyncMore.
Import Sync.
Variable lower : str -> str.
Variable http_get : str -> external (list N).
Variable path_sep : str.

Lemma split_not_nil (sep : N) (s : str) : split sep s <> [].
Proof.
  destruct s as [|c r]; simpl; [discriminate|].
  destruct (c =? sep)%N; [discriminate|].
  destruct (split sep r); discriminate.
Qed.

Lemma join_cons (sep h : str) (t : list str) :
  t <> [] -> join sep (h :: t) = h ++ sep ++ join sep t.
Proof. destruct t; [contradiction|reflexivity]. Qed.

(** Joining the pieces with the separator gives the text back. *)
Lemma split_join (sep : N) (s : str) : join [sep] (split sep s) = s.
Proof.
  induction s as [|c r IH]; simpl; [reflexivity|].
  pose proof (split_not_nil sep r) as Hne.
  destruct (N.eqb_spec c sep) as [->|Hc].
  - rewrite join_cons by exact Hne. rewrite IH. reflexivity.
  - destruct (split sep r) as [|h t]; [contradiction|].
    destruct t as [|h' t].
    + simpl in IH |- *. rewrite IH. reflexivity.
    + rewrite join_cons by discriminate. rewrite join_cons in IH by discriminate.
      rewrite <- IH. reflexivity.
Qed.

(** No piece holds the separator. *)
Lemma split_pieces (sep : N) (s : str) (p : str) :
  p ∈ split sep s -> sep ∉ p.
Proof.
  revert p. induction s as [|c r IH]; intros p; simpl.
  - intros Hp. apply list_elem_of_singleton in Hp. subst p. apply not_elem_of_nil.
  - destruct (N.eqb_spec c sep) as [->|Hc].
    + intros Hp. apply elem_of_cons in Hp as [->|Hp]; [apply not_elem_of_nil|auto].
    + pose proof (split_not_nil sep r) as Hne.
      destruct (split sep r) as [|h t]; [contradiction|].
      intros Hp. apply elem_of_cons in Hp as [->|Hp].
      * intros Hin. apply elem_of_cons in Hin as [Heq|Hin]; [congruence|].
        apply (IH h); [left|exact Hin].
      * apply IH. right. exact Hp.
Qed.

Lemma join_snoc (sep x : str) (init : list str) :
  init <> [] -> join sep (init ++ [x]) = join sep init ++ sep ++ x.
Proof.
  induction init as [|y init IH]; [contradiction|]. intros _.
  destruct init as [|z init]; [reflexivity|].
  change ((y :: z :: init) ++ [x]) with (y :: ((z :: init) ++ [x])).
  rewrite join_cons by (simpl; discriminate).
  rewrite IH by discriminate.
  rewrite (join_cons sep y (z :: init)) by discriminate.
  rewrite <- !app_assoc. reflexivity.
Qed.

(** The text ends with its last piece, after a separator if there is
    anything before it. *)
Lemma split_last (sep : N) (s : str) :
  exists pre,
    s = pre ++ List.last (split sep s) [] /\
    (pre = [] \/ exists pre', pre = pre' ++ [sep]).
Proof.
  pose proof (split_join sep s) as Hjoin.
  pose proof (split_not_nil sep s) as Hne.
  rewrite (app_removelast_last [] Hne) in Hjoin.
  destruct (removelast (split sep s)) as [|y init] eqn:Hinit.
  - exists []. split; [symmetry; exact Hjoin|left; reflexivity].
  - rewrite join_snoc in Hjoin by discriminate.
    exists (join [sep] (y :: init) ++ [sep]). split.
    + rewrite <- Hjoin at 1. rewrite <- app_assoc. reflexivity.
    + right. eauto.
Qed.

(** The text starts with its first piece, before a separator if there is
    anything after it. *)
Lemma split_hd (sep : N) (s : str) :
  exists post,
    s = hd [] (split sep s) ++ post /\
    (post = [] \/ exists post', post = sep :: post').
Proof.
  pose proof (split_join sep s) as Hjoin.
  destruct (split sep s) as [|h t] eqn:Hsplit.
  - exfalso. apply (split_not_nil sep s). exact Hsplit.
  - destruct t as [|h' t].
    + exists []. simpl in *. rewrite app_nil_r. split; [symmetry; exact Hjoin|auto].
    + rewrite join_cons in Hjoin by discriminate.
      exists ([sep] ++ join [sep] (h' :: t)). split; [symmetry; exact Hjoin|].
      right. eauto.
Qed.

(** X16: the name under which a document is saved is the part of the URL
    after its last slash, up to the first question mark after that
    slash; it holds no slash and no question mark. *)
Theorem file_name_of_spec (url : str) :
  exists pre post,
    url = pre ++ file_name_of url ++ post /\
    (pre = [] \/ exists pre', pre = pre' ++ [47%N]) /\
    (post = [] \/ exists post', post = 63%N :: post') /\
    (47%N ∉ file_name_of url ++ post) /\
    (63%N ∉ file_name_of url).
Proof.
  unfold file_name_of.
  destruct (split_last 47 url) as (pre & Hurl & Hpre).
  set (seg := List.last (split 47 url) []) in *.
  destruct (split_hd 63 seg) as (post & Hseg & Hpost).
  exists pre, post. split; [rewrite <- Hseg; exact Hurl|].
  split; [exact Hpre|]. split; [exact Hpost|]. split.
  - rewrite <- Hseg. apply (split_pieces 47 url). unfold seg.
    pose proof (split_not_nil 47 url) as Hne.
    rewrite (app_removelast_last [] Hne) at 2.
    apply elem_of_app. right. left.
  - apply (split_pieces 63 seg).
    pose proof (split_not_nil 63 seg) as Hne.
    destruct (split 63 seg); [contradiction|left].
Qed.

Local Abbreviation download_pdf := (download_pdf lower http_get path_sep).
Local Abbreviation try_download := (try_download lower http_get path_sep).
Local Abbreviation download_all := (download_all lower http_get path_sep).
Local Abbreviation path_in := (path_in path_sep).
Local Abbreviation looks_like_pdf := (looks_like_pdf lower).
Local Abbreviation is_served := (is_served http_get).
Local Abbreviation line_of := (line_of http_get path_sep).

Lemma fold_left_concat {A B C} (f : A -> B -> A) (g : C -> list B)
    (l : list C) (a : A) :
  fold_left (fun a c => fold_left f (g c) a) l a
  = fold_left f (concat (map g l)) a.
Proof.
  revert a. induction l as [|c l IH]; intros a; simpl; [reflexivity|].
  rewrite fold_left_app. apply IH.
Qed.

Lemma path_in_not_empty folder name : folder <> [] -> path_in folder name <> [].
Proof. unfold Sync.path_in. destruct folder; [contradiction|discriminate]. Qed.

(** One turn of the inner loop. *)
Lemma try_download_step folder w link :
  folder <> [] ->
  try_download folder w link
  = if looks_like_pdf link then
      match http_get link with
      | Returns content =>
          {| files := <[path_in folder (file_name_of link) := content]> (files w);
             requests := requests w ++ [link];
             printed := printed w ++ [Downloaded (path_in folder (file_name_of link))];
             downloaded := downloaded w + 1 |}
      | Raises e =>
          {| files := files w;
             requests := requests w ++ [link];
             printed := printed w ++ [Failed link e];
             downloaded := downloaded w |}
      end
    else w.
Proof.
  intros Hfolder. unfold Sync.try_download, Sync.download_pdf, Sync.looks_like_pdf.
  destruct (ends_with (lit ".pdf") (lower link)); simpl; [|reflexivity].
  destruct (http_get link) as [content|e]; simpl; [|reflexivity].
  rewrite bool_decide_eq_false_2 by (apply path_in_not_empty, Hfolder).
  reflexivity.
Qed.

Lemma download_links_account folder links w :
  folder <> [] ->
  requests (fold_left (try_download folder) links w)
  = requests w ++ List.filter looks_like_pdf links /\
  printed (fold_left (try_download folder) links w)
  = printed w ++ map (line_of folder) (List.filter looks_like_pdf links) /\
  downloaded (fold_left (try_download folder) links w)
  = downloaded w
    + Z.of_nat (length (List.filter is_served (List.filter looks_like_pdf links))).
Proof.
  intros Hfolder. revert w. induction links as [|link links IH]; intros w.
  - simpl. rewrite !app_nil_r. split; [|split]; [reflexivity|reflexivity|lia].
  - cbn [fold_left List.filter]. destruct (IH (try_download folder w link)) as (Hr & Hp & Hd).
    rewrite Hr, Hp, Hd. rewrite (try_download_step folder w link Hfolder).
    destruct (looks_like_pdf link); [|auto].
    cbn [List.filter map]. unfold Sync.is_served at 2, Sync.line_of at 2.
    destruct (http_get link) as [content|e]; cbn [requests printed downloaded length];
      rewrite <- !app_assoc; split; [reflexivity| |reflexivity|];
      split; [reflexivity|lia|reflexivity|lia].
Qed.

(** X17: over the source links of the schemes, in their order, [main]'s
    loops make one request for every link whose lowered form ends in
    [.pdf] and for no other; for each of them they print the saved path
    when the server gives the document and the failure when the request
    raises, going on with the next link either way; and the counter goes
    up by the number of documents given. *)
Theorem download_all_account folder schemes w :
  folder <> [] ->
  let links := concat (map App.source_links schemes) in
  let w' := download_all folder schemes w in
  requests w' = requests w ++ List.filter looks_like_pdf links /\
  printed w'
  = printed w ++ map (line_of folder) (List.filter looks_like_pdf links) /\
  downloaded w'
  = downloaded w
    + Z.of_nat (length (List.filter is_served (List.filter looks_like_pdf links))).
Proof.
  intros Hfolder links w'. subst w'. unfold Sync.download_all.
  rewrite fold_left_concat. apply download_links_account. exact Hfolder.
Qed.

Lemma download_links_files folder links w path :
  folder <> [] ->
  ((forall url, In url links -> looks_like_pdf url = true ->
                path <> path_in folder (file_name_of url)) ->
   files (fold_left (try_download folder) links w) !! path = files w !! path) /\
  (is_Some (files w !! path) ->
   is_Some (files (fold_left (try_download folder) links w) !! path)) /\
  (forall url, In url links -> looks_like_pdf url = true ->
     is_served url = true -> path = path_in folder (file_name_of url) ->
     is_Some (files (fold_left (try_download folder) links w) !! path)).
Proof.
  intros Hfolder. revert w. induction links as [|link links IH]; intros w.
  - simpl. split; [reflexivity|]. split; [auto|]. intros url [].
  - cbn [fold_left]. destruct (IH (try_download folder w link)) as (Hother & Hkeep & Hnew).
    assert (Hstep := try_download_step folder w link Hfolder).
    split; [|split].
    + intros Hpath. rewrite Hother by (intros url Hurl; apply Hpath; right; exact Hurl).
      rewrite Hstep. destruct (looks_like_pdf link) eqn:Hpdf; [|reflexivity].
      destruct (http_get link); [|reflexivity]. simpl.
      apply lookup_insert_ne. intros Heq. apply (Hpath link); [left; reflexivity|exact Hpdf|].
      symmetry. exact Heq.
    + intros Hsome. apply Hkeep. rewrite Hstep.
      destruct (looks_like_pdf link); [|exact Hsome].
      destruct (http_get link); [|exact Hsome]. simpl.
      rewrite lookup_insert. destruct (decide _); [eauto|exact Hsome].
    + intros url [->|Hurl] Hpdf Hserved ->; [|eapply Hnew; eauto].
      apply Hkeep. rewrite Hstep, Hpdf. unfold Sync.is_served in Hserved.
      destruct (http_get url); [|discriminate]. simpl.
      rewrite lookup_insert_eq. eauto.
Qed.

(** X18: [main]'s loops leave every file as it was, except the files
    under the names of the links that look like documents; and when they
    are done there is a file under the name of every such link that the
    server gave. *)
Theorem download_all_files folder schemes w :
  folder <> [] ->
  let links := concat (map App.source_links schemes) in
  let w' := download_all folder schemes w in
  (forall path,
     (forall url, In url links -> looks_like_pdf url = true ->
                  path <> path_in folder (file_name_of url)) ->
     files w' !! path = files w !! path) /\
  (forall url, In url links -> looks_like_pdf url = true ->
     is_served url = true ->
     is_Some (files w' !! path_in folder (file_name_of url))).
Proof.
  intros Hfolder links w'. subst w'. unfold Sync.download_all.
  rewrite fold_left_concat. split.
  - intros path. apply download_links_files. exact Hfolder.
  - intros url Hurl Hpdf Hserved.
    eapply (download_links_files folder _ w _ Hfolder); eauto.
Qed.

End SyncMore.

Lemma download_all_account_witness :
  Sync.requests
    (Sync.download_all lower_ascii ex_http (lit "/") (lit "pdfs_raw")
       Sync.SCHEMES ex_world)
  = [lit "https://sspensions.ap.gov.in/SSP/Documents/GO%20MS%2043%2013.06.2024.pdf";
     lit "https://wdsc.telangana.gov.in/PwD/GOs/GO.Ms.No.04%20PwD%20Kalyana%20Lashmi%20Pathakam.PDF"]
  /\
  Sync.downloaded
    (Sync.download_all lower_ascii ex_http (lit "/") (lit "pdfs_raw")
       Sync.SCHEMES ex_world)
  = 1.
Proof.
  destruct (download_all_account lower_ascii ex_http (lit "/") (lit "pdfs_raw")
              Sync.SCHEMES ex_world) as (Hrequests & _ & Hdownloaded);
    [discriminate|].
  split; [rewrite Hrequests|rewrite Hdownloaded]; vm_compute; reflexivity.
Defined.

Lemma download_all_files_witness :
  is_Some
    (Sync.files
       (Sync.download_all lower_ascii ex_http (lit "/") (lit "pdfs_raw")
          Sync.SCHEMES ex_world)
     !! lit "pdfs_raw/GO%20MS%2043%2013.06.2024.pdf").
Proof.
  destruct (download_all_files lower_ascii ex_http (lit "/") (lit "pdfs_raw")
              Sync.SCHEMES ex_world) as (_ & Hpresent); [discriminate|].
  apply (Hpresent
           (lit "https://sspensions.ap.gov.in/SSP/Documents/GO%20MS%2043%2013.06.2024.pdf"));
    [vm_compute; tauto|vm_compute; reflexivity|vm_compute; reflexivity].
Defined.

(** ** The links that the seed table gives *)

Section SeedLinks.
Import App.
Variable lower : str -> str.
Variable http_get : str -> external (list N).
Variable path_sep : str.

Lemma filter_name_only (ev : list evidence) (db : list scheme) :
  Forall (fun s => doc_ids s = [] /\ file_names s = []) db ->
  filter (fun s => entry_matches lower ev s) db
  = filter (fun s => rule_scheme_name lower ev s) db.
Proof.
  induction 1 as [|s db [Hids Hfiles] _ IH]; [reflexivity|].
  rewrite !filter_cons, IH.
  assert (Heq : entry_matches lower ev s = rule_scheme_name lower ev s).
  { unfold entry_matches, rule_doc_id, rule_file_name.
    rewrite Hids, Hfiles. reflexivity. }
  rewrite Heq. reflexivity.
Qed.

(** X19: the mapping that [sync_link] writes is the seed table, whose
    entries carry neither document ids nor file names; and against a
    links file of such entries the matcher includes exactly the entries
    whose lowered name occurs in a lowered file name of the evidence. *)
Theorem seed_links_match_by_name folder w :
  (Sync.main lower http_get path_sep folder w).1 = Sync.SCHEMES /\
  Forall (fun s => doc_ids s = [] /\ file_names s = []) Sync.SCHEMES /\
  forall d ev db,
    load_scheme_links d = Ok db ->
    Forall (fun s => doc_ids s = [] /\ file_names s = []) db ->
    match_links_from_evidence lower d ev
    = Ok (filter (fun s => rule_scheme_name lower ev s) db).
Proof.
  split; [reflexivity|]. split; [repeat constructor|].
  intros d ev db Hdb Hkeys.
  rewrite (match_links_filter lower d ev db Hdb).
  rewrite (filter_name_only ev db Hkeys). reflexivity.
Qed.

End SeedLinks.

Lemma handler_index_not_built_witness :
  App.handler ex_embed ex_search lower_ascii None ex_unavailable ex_disk
    ex_inputs
  = App.Run [App.Retrieve (App.query_of ex_inputs) 4]
            (Raise (RuntimeError App.index_not_found)).
Proof.
  apply (handler_index_not_built ex_embed ex_search lower_ascii None
           ex_unavailable ex_disk ex_inputs).
  left. reflexivity.
Defined.

Lemma match_links_grows_witness :
  exists out out',
    App.match_links_from_evidence lower_ascii ex_disk [] = Ok out /\
    App.match_links_from_evidence lower_ascii ex_disk ([] ++ [] ++ ex_ev1) = Ok out' /\
    out `sublist_of` out' /\
    App.match_links_from_evidence lower_ascii ex_disk [] = Ok [].
Proof.
  apply (match_links_grows lower_ascii ex_disk [] [] ex_ev1 ex_links).
  reflexivity.
Defined.

Lemma prompt_grounding_witness :
  exists prompt,
    App.trace (App.llm_answer (Some (lit "key")) ex_unavailable
                 (App.profile_of ex_inputs) ex_retrieved)
    = [App.GenerateContent prompt] /\
    (exists pre post,
       prompt = pre ++ App.profile_repr (App.profile_of ex_inputs) ++ post) /\
    forall e, e ∈ ex_retrieved ->
      exists pre post,
        prompt = pre ++ (lit "[" ++ App.file_name e ++ lit " | page "
                         ++ of_int (App.page_no e) ++ lit "]" ++ App.nl
                         ++ App.text e)
                 ++ post.
Proof.
  apply (prompt_grounding (Some (lit "key")) ex_unavailable
           (App.profile_of ex_inputs) ex_retrieved).
  discriminate.
Defined.

(** ** The text from its chunks, and retrieval after a build *)

Section Reassemble.
Import Build.

Lemma windows_reassemble L m o s ws (t : str) :
  windows_from L m o s ws -> L = len t -> 0 <= o -> o < m -> 0 <= s ->
  o < L - s ->
  exists c rest,
    map (cut t) ws = c :: rest /\
    o < len c /\
    drop (Z.to_nat s) t = c ++ concat (map (drop (Z.to_nat o)) rest).
Proof.
  intros Hws HL Ho Hom.
  induction Hws as [s Hs|s e Hs He Hend|s e ws Hs He Hend Hws IH];
    intros Hs0 HsL.
  - lia.
  - exists (cut t (s, e)), []. split; [reflexivity|]. unfold cut. cbn [fst snd].
    rewrite len_slice by lia. split; [lia|].
    rewrite slice_inside by lia. simpl. rewrite app_nil_r.
    rewrite take_ge; [reflexivity|]. rewrite length_drop. unfold len in *. lia.
  - destruct IH as (c' & rest & Hcut & Hlen & Hdrop); [lia|lia|].
    exists (cut t (s, e)), (c' :: rest). split; [simpl; rewrite Hcut; reflexivity|].
    unfold cut. cbn [fst snd]. rewrite len_slice by lia. split; [lia|].
    rewrite slice_inside by lia. cbn [map concat].
    assert (Hrest : drop (Z.to_nat e) t
                    = drop (Z.to_nat o) c' ++ concat (map (drop (Z.to_nat o)) rest)).
    { rewrite <- drop_app_le by (unfold len in Hlen; lia).
      rewrite <- Hdrop, drop_drop. f_equal. lia. }
    rewrite <- Hrest.
    rewrite <- (take_drop (Z.to_nat (e - s)) (drop (Z.to_nat s) t)) at 1.
    rewrite drop_drop. do 2 f_equal. lia.
Qed.

(** X20: with [0 <= overlap < max_chars], the cleaned text is what the
    chunks of a long text give back: the first chunk, followed by every
    later chunk without its first [overlap] characters. *)
Theorem chunk_text_reassemble text m o :
  0 <= o -> o < m -> m < len (clean_text text) ->
  exists c rest,
    (forall fuel, (length (clean_text text) < fuel)%nat ->
       chunk_text fuel text m o = Ok (c :: rest)) /\
    clean_text text = c ++ concat (map (drop (Z.to_nat o)) rest).
Proof.
  intros Ho Hom Hm.
  assert (Hne : clean_text text <> []).
  { intros Heq. rewrite Heq in Hm. unfold len in Hm. simpl in Hm. lia. }
  destruct (chunk_text_long text m o Hom Hm Hne) as (ws & Hws & Hrun).
  destruct (windows_reassemble _ _ _ _ _ (clean_text text) Hws eq_refl Ho Hom
              (Z.le_refl 0)) as (c & rest & Hcut & _ & Hdrop); [lia|].
  exists c, rest. split; [|exact Hdrop].
  intros fuel Hfuel. rewrite (Hrun fuel Hfuel), Hcut. reflexivity.
Qed.

End Reassemble.

Lemma chunk_text_reassemble_witness :
  exists c rest,
    (forall fuel, (length (Build.clean_text (lit "abcdefghij")) < fuel)%nat ->
       Build.chunk_text fuel (lit "abcdefghij") 4 1 = Ok (c :: rest)) /\
    Build.clean_text (lit "abcdefghij")
    = c ++ concat (map (drop (Z.to_nat 1)) rest).
Proof.
  apply (chunk_text_reassemble (lit "abcdefghij") 4 1); [lia|lia|].
  vm_compute. reflexivity.
Defined.

Section AfterBuild.
Import App.
Variable encode1 : str -> Build.vec.
Variable emb_dim : Z.
Variable embed_query : str -> Build.vec.
Variable search : Build.index -> Build.vec -> Z -> list float * list Z.

(** X21: on the index and the metadata table that a build has written,
    and given of faiss what it documents of a search, [retrieve] does
    not raise: it returns [top_k] pieces of evidence, each of which
    carries the document id, file name, page number and text of a row
    that the build wrote. *)
Theorem retrieve_after_build pdfs art d query top_k :
  Build.main encode1 emb_dim pdfs = Ok art ->
  faiss_index_file d = Some (Returns (Build.faiss_index art)) ->
  meta_parquet_file d = Some (Returns (Build.meta_parquet art)) ->
  1 <= top_k ->
  faiss_result (Build.faiss_index art) top_k
    (search (Build.faiss_index art) (embed_query query) top_k) ->
  exists out,
    retrieve embed_query search d query top_k = Ok out /\
    len out = top_k /\
    forall e, e ∈ out ->
      exists r,
        r ∈ Build.meta_parquet art /\
        doc_id e = Build.doc_id r /\ file_name e = Build.file_name r /\
        page_no e = Build.page_no r /\ text e = Build.text r.
Proof.
  intros Hmain Hindex Hmeta Hk (Hls & Hli & _ & Hids).
  assert (Hart : Build.meta_parquet art <> [] /\
                 length (Build.vectors (Build.faiss_index art))
                 = length (Build.meta_parquet art)).
  { revert Hmain. unfold Build.main.
    destruct (bool_decide (pdfs = [])); [discriminate|].
    destruct (for_each Build.pdf_rows pdfs) as [rows| |]; simpl; try discriminate.
    destruct (decide (Build.encode encode1 (map Build.text rows) = [])) as [Heq|Hne].
    { rewrite bool_decide_eq_true_2 by exact Heq. discriminate. }
    rewrite bool_decide_eq_false_2 by exact Hne. intros [= <-]. simpl.
    unfold Build.encode in *. rewrite !length_map. split; [|reflexivity].
    intros ->. apply Hne. reflexivity. }
  destruct Hart as [Hrows Hlen].
  unfold retrieve, load_index_and_meta. rewrite Hindex, Hmeta. simpl.
  set (res := search (Build.faiss_index art) (embed_query query) top_k) in *.
  set (meta := Build.meta_parquet art) in *.
  destruct (for_each_items
    (fun it : Z * Z =>
       r ← iloc meta it.2; sc ← at_ res.1 it.1;
       Ok [{| score := sc; doc_id := Build.doc_id r;
              file_name := Build.file_name r; page_no := Build.page_no r;
              text := Build.text r |}])
    (fun it e =>
       exists r, r ∈ meta /\
                 doc_id e = Build.doc_id r /\ file_name e = Build.file_name r /\
                 page_no e = Build.page_no r /\ text e = Build.text r)
    (enumerate 0 res.2)) as (out & Hout & Hall).
  { intros [i id] Hin. apply list_elem_of_lookup in Hin as [n Hn].
    rewrite enumerate_lookup in Hn.
    destruct (res.2 !! n) as [id'|] eqn:Hid; [|discriminate].
    simpl in Hn. injection Hn as <- <-. simpl.
    destruct (iloc_label meta id' Hrows) as [r Hr].
    { unfold len in *. rewrite <- Hlen. apply Hids.
      apply list_elem_of_lookup. eauto. }
    rewrite Hr. simpl. unfold at_.
    replace (Z.to_nat (0 + Z.of_nat n)) with n by lia.
    destruct (res.1 !! n) as [sc|] eqn:Hsc.
    - simpl. eexists. split; [reflexivity|]. exists r. simpl.
      split; [|auto]. unfold iloc in Hr.
      destruct (_ && _); [|discriminate].
      destruct (meta !! _) as [r'|] eqn:Hr'; [|discriminate].
      injection Hr as <-. apply list_elem_of_lookup. eauto.
    - apply lookup_ge_None in Hsc. apply lookup_lt_Some in Hid. lia. }
  exists out. split; [exact Hout|]. split.
  - unfold len. rewrite <- (Forall2_length _ _ _ Hall).
    replace (length (enumerate 0 res.2)) with (length res.2); [lia|].
    clear. generalize 0. induction res.2; intros k; simpl; auto.
  - intros e He. apply list_elem_of_lookup in He as [i Hi].
    destruct (Forall2_lookup_r _ _ _ _ _ Hall Hi) as (it & _ & Hr). exact Hr.
Qed.

End AfterBuild.

Lemma ex_search_one_faiss_result :
  App.faiss_result (Build.faiss_index ex_art) 2
    (ex_search_one (Build.faiss_index ex_art) (ex_embed (App.query_of ex_inputs)) 2).
Proof.
  unfold App.faiss_result, ex_search_one. cbn [fst snd].
  split; [reflexivity|]. split; [reflexivity|]. split.
  - intros i j si sj Hij Hi Hj.
    destruct i as [|[|i]]; try discriminate;
      destruct j as [|[|j]]; try discriminate; try lia;
      injection Hi as <-; injection Hj as <-; reflexivity.
  - intros id Hid. unfold len. cbn.
    rewrite !elem_of_cons, elem_of_nil in Hid. lia.
Qed.

Lemma retrieve_after_build_witness :
  exists out,
    App.retrieve ex_embed ex_search_one
      {| App.faiss_index_file := Some (Returns (Build.faiss_index ex_art));
         App.meta_parquet_file := Some (Returns (Build.meta_parquet ex_art));
         App.links_json_file := None |}
      (App.query_of ex_inputs) 2 = Ok out /\
    len out = 2.
Proof.
  destruct (retrieve_after_build ex_encode1 2 ex_embed ex_search_one ex_pdfs ex_art
              {| App.faiss_index_file := Some (Returns (Build.faiss_index ex_art));
                 App.meta_parquet_file := Some (Returns (Build.meta_parquet ex_art));
                 App.links_json_file := None |}
              (App.query_of ex_inputs) 2)
    as (out & Hout & Hlen & _);
    [vm_compute; reflexivity|reflexivity|reflexivity|lia
    |exact ex_search_one_faiss_result|].
  exists out. split; assumption.
Defined.
